(** * ApiJsonGenerator: the *.api.json serializer of api-extractor

    A shallow embedding of
    [libraries/api-extractor/src/generators/ApiJsonGenerator.ts]:
    the visitor that walks the analysed item tree and builds the JSON
    document, and [writeJsonFile], which saves and validates it.

    JavaScript objects are association lists in insertion order, an
    assignment [o[k] = v] to an existing key replacing the value where
    the key already stands.  JavaScript does otherwise for a name that
    is an array index, which it enumerates first, and for [__proto__],
    which it does not add as a key: the theorems on the order of keys
    and on whole containers have the hypothesis [ordinaryName] on the
    names they assign under.  Exceptions are the [Throw] case of
    [Result]. *)

From Stdlib Require Import Ascii.
From stdpp Require Import base option list strings pretty gmap.

Open Scope string_scope.
Open Scope list_scope.

(** ** JavaScript values and objects *)

Unset Elimination Schemes.

Inductive JsValue : Type :=
| JUndefined
| JBool (b : bool)
| JString (s : string)
| JArray (items : list JsValue)
| JObject (props : list (string * JsValue)).

Set Elimination Schemes.

(** An object whose property values have type [A], in key order. *)
Abbreviation JsObj A := (list (string * A)).
Abbreviation JsObject := (list (string * JsValue)).

(** [o[k]] *)
Fixpoint js_get {A} (k : string) (o : JsObj A) : option A :=
  match o with
  | [] => None
  | (k', v) :: o' => if String.eqb k' k then Some v else js_get k o'
  end.

(** [o[k] = v] *)
Fixpoint js_set {A} (k : string) (v : A) (o : JsObj A) : JsObj A :=
  match o with
  | [] => [(k, v)]
  | (k', v') :: o' =>
      if String.eqb k' k then (k', v) :: o' else (k', v') :: js_set k v o'
  end.

(** [Object.keys(o)] *)
Definition js_keys {A} (o : JsObj A) : list string := map fst o.

Definition js_has {A} (k : string) (o : JsObj A) : bool :=
  match js_get k o with Some _ => true | None => false end.

(** ** Exceptions *)

Inductive JsError : Type :=
| TypeError (message : string)
| Error (message : string).

Inductive Result (A : Type) : Type :=
| Ok (a : A)
| Throw (e : JsError).
Arguments Ok {A} a.
Arguments Throw {A} e.

Definition bind {A B} (m : Result A) (k : A → Result B) : Result B :=
  match m with
  | Ok a => k a
  | Throw e => Throw e
  end.

Notation "'do' p <- m ; k" := (bind m (λ p, k))
  (at level 10, p pattern, m at level 100, k at level 200).

(** ** Enumerations *)

(** Modelled from the spec: the [ReleaseTag] enum of [aedoc/ReleaseTag.ts],
    which is not among the sources; section 3 gives its five values. *)
Module ReleaseTag.
Inductive t : Set := None | Public | Beta | Alpha | Internal.

Definition eqb (a b : t) : bool :=
  match a, b with
  | None, None | Public, Public | Beta, Beta
  | Alpha, Alpha | Internal, Internal => true
  | _, _ => false
  end.
End ReleaseTag.

(** Modelled from the spec: the [AstItemKind] enum of [ast/AstItem.ts],
    which is not among the sources; the tags are those whose strings the
    Kind-Name Table of section 4.3 lists. *)
Module AstItemKind.
Inductive t : Set :=
| Class | Enum | EnumValue | Function | Interface | Method
| Package | Property | Constructor | Namespace | ModuleVariable.

Definition eqb (a b : t) : bool :=
  match a, b with
  | Class, Class | Enum, Enum | EnumValue, EnumValue
  | Function, Function | Interface, Interface | Method, Method
  | Package, Package | Property, Property | Constructor, Constructor
  | Namespace, Namespace | ModuleVariable, ModuleVariable => true
  | _, _ => false
  end.

Definition all : list t :=
  [Class; Enum; EnumValue; Function; Interface; Method;
   Package; Property; Constructor; Namespace; ModuleVariable].
End AstItemKind.

(** Modelled from the spec: [ApiJsonFile.convertKindToJson], which is not
    among the sources; the Kind-Name Table of section 4.3. *)
Definition convertKindToJson (apiItemKind : AstItemKind.t) : string :=
  match apiItemKind with
  | AstItemKind.Class => "class"
  | AstItemKind.Constructor => "constructor"
  | AstItemKind.Enum => "enum"
  | AstItemKind.EnumValue => "enum value"
  | AstItemKind.Function => "function"
  | AstItemKind.Interface => "interface"
  | AstItemKind.Method => "method"
  | AstItemKind.Namespace => "namespace"
  | AstItemKind.Package => "package"
  | AstItemKind.Property => "property"
  | AstItemKind.ModuleVariable => "module variable"
  end.

(** Modelled from the spec: the [ApiAccessModifier] enum of
    [ast/AstMember.ts], which is not among the sources; section 3 names the
    modifiers, and an item without one has [None]. *)
Module ApiAccessModifier.
Inductive t : Set := Private | Protected | Public.

(** [ApiAccessModifier[m].toLowerCase()] *)
Definition lowerCaseName (m : t) : string :=
  match m with
  | Private => "private"
  | Protected => "protected"
  | Public => "public"
  end.
End ApiAccessModifier.

(** ** The item model *)

(** A rich-text element ([IDocElement]) is an opaque JSON value here. *)
Abbreviation IDocElement := JsValue.

(** [ts.SyntaxKind] is a numeric enum. *)
Abbreviation SyntaxKind := N.

(** A [ts.Declaration]: its syntax kind, and the texts of its tokens in
    source order.  A token node is identified by its position. *)
Module Declaration.
Record t : Type := mk {
  kind : SyntaxKind;
  tokens : list string
}.

(** A token node: position in the declaration, and text. *)
Definition Node : Type := nat * string.

Definition getFirstToken (d : t) : option Node :=
  match tokens d with
  | [] => None
  | s :: _ => Some (0, s)
  end.

Definition getLastToken (d : t) : option Node :=
  match last (tokens d) with
  | Some s => Some (pred (length (tokens d)), s)
  | None => None
  end.

Definition getText (n : Node) : string := snd n.

(** [a !== b] on optional nodes: identity of the node objects. *)
Definition differ (a b : option Node) : bool :=
  match a, b with
  | Some x, Some y => negb (Nat.eqb (fst x) (fst y))
  | None, None => false
  | _, _ => true
  end.
End Declaration.

(** The documentation entry of one parameter ([IApiParameter]).  The
    upstream parser fills [name] and [description]; the three signature
    fields are absent until the generator assigns them. *)
Module IApiParameter.
Record t : Type := mk {
  name : string;
  description : list IDocElement;
  isOptional : option bool;
  isSpread : option bool;
  type : option string
}.
End IApiParameter.

(** A declared parameter of a function or method ([AstParameter]). *)
Module AstParameter.
Record t : Type := mk {
  name : string;
  supportedName : bool;
  isOptional : bool;
  isSpread : bool;
  type : string
}.
End AstParameter.

(** The documentation bundle of an item ([ApiDocumentation]). *)
Module ApiDocumentation.
Record t : Type := mk {
  summary : option (list IDocElement);
  remarks : option (list IDocElement);
  deprecatedMessage : option (list IDocElement);
  releaseTag : ReleaseTag.t;
  parameters : JsObj IApiParameter.t;
  returnsMessage : option (list IDocElement)
}.

Definition withParameters (d : t) (ps : JsObj IApiParameter.t) : t :=
  mk (summary d) (remarks d) (deprecatedMessage d) (releaseTag d)
     ps (returnsMessage d).
End ApiDocumentation.

(** The fields every [AstItem] has. *)
Module AstItemBase.
Record t : Type := mk {
  name : string;
  kind : AstItemKind.t;
  supportedName : bool;
  documentation : ApiDocumentation.t;
  (** [getDeclaration()], which may be undefined *)
  declaration : option Declaration.t
}.

Definition withParameters (b : t) (ps : JsObj IApiParameter.t) : t :=
  mk (name b) (kind b) (supportedName b)
     (ApiDocumentation.withParameters (documentation b) ps)
     (declaration b).
End AstItemBase.

Module AstStructuredType.
Record t : Type := mk {
  extends : option string;
  implements : option string;
  typeParameters : option (list string)
}.
End AstStructuredType.

Module AstFunction.
Record t : Type := mk {
  params : list AstParameter.t;
  returnType : string
}.
End AstFunction.

Module AstProperty.
Record t : Type := mk {
  isOptional : bool;
  isReadOnly : bool;
  isStatic : bool;
  type : string
}.
End AstProperty.

Module AstModuleVariable.
Record t : Type := mk {
  type : string;
  value : string
}.
End AstModuleVariable.

Module AstMethod.
Record t : Type := mk {
  params : list AstParameter.t;
  returnType : string;
  accessModifier : option ApiAccessModifier.t;
  isOptional : bool;
  isStatic : bool;
  (** [getDeclarationLine()] *)
  declarationLine : string
}.
End AstMethod.

(** The item tree: one constructor per class that the visitor tells apart
    with [instanceof]; [Member] is any other [AstMember].  The member
    lists are what [getSortedMemberItems()] returns. *)
Unset Elimination Schemes.

Inductive AstItem : Type :=
| StructuredType (base : AstItemBase.t) (fields : AstStructuredType.t)
                 (members : list AstItem)
| Enum (base : AstItemBase.t) (members : list AstItem)
| EnumValue (base : AstItemBase.t)
| Function (base : AstItemBase.t) (fields : AstFunction.t)
| Package (base : AstItemBase.t) (members : list AstItem)
| Namespace (base : AstItemBase.t) (members : list AstItem)
| Property (base : AstItemBase.t) (fields : AstProperty.t)
| ModuleVariable (base : AstItemBase.t) (fields : AstModuleVariable.t)
| Method (base : AstItemBase.t) (fields : AstMethod.t)
| Member (base : AstItemBase.t).

Set Elimination Schemes.

Definition itemBase (astItem : AstItem) : AstItemBase.t :=
  match astItem with
  | StructuredType b _ _ | Enum b _ | EnumValue b | Function b _
  | Package b _ | Namespace b _ | Property b _ | ModuleVariable b _
  | Method b _ | Member b => b
  end.

Definition itemName (astItem : AstItem) : string :=
  AstItemBase.name (itemBase astItem).

Definition itemReleaseTag (astItem : AstItem) : ReleaseTag.t :=
  ApiDocumentation.releaseTag (AstItemBase.documentation (itemBase astItem)).

(** ** Building nodes *)

(** [text || []] *)
Definition orEmpty (text : option (list IDocElement)) : JsValue :=
  JArray (default [] text).

(** A rich text stored as it is, undefined when absent. *)
Definition asIs (text : option (list IDocElement)) : JsValue :=
  match text with
  | Some elements => JArray elements
  | None => JUndefined
  end.

(** [documentation.releaseTag === ReleaseTag.Beta] *)
Definition isBetaOf (documentation : ApiDocumentation.t) : JsValue :=
  JBool (ReleaseTag.eqb (ApiDocumentation.releaseTag documentation)
                        ReleaseTag.Beta).

Definition optionalField (k : string) (v : option JsValue) : JsObject :=
  match v with
  | Some x => [(k, x)]
  | None => []
  end.

(** A parameter documentation entry as it stands in the document: the
    node holds the entry object itself. *)
Definition parameterNode (p : IApiParameter.t) : JsValue :=
  JObject
    ([("name", JString (IApiParameter.name p));
      ("description", JArray (IApiParameter.description p))]
     ++ optionalField "isOptional" (JBool <$> IApiParameter.isOptional p)
     ++ optionalField "isSpread" (JBool <$> IApiParameter.isSpread p)
     ++ optionalField "type" (JString <$> IApiParameter.type p)).

(** [documentation.parameters] as it stands in the document. *)
Definition parametersNode (parameters : JsObj IApiParameter.t) : JsValue :=
  JObject (map (λ entry, (fst entry, parameterNode (snd entry))) parameters).

(** The three doc fields that every handler but the package's writes. *)
Definition deprecatedMessageField (d : ApiDocumentation.t) : string * JsValue :=
  ("deprecatedMessage", orEmpty (ApiDocumentation.deprecatedMessage d)).
Definition summaryField (d : ApiDocumentation.t) : string * JsValue :=
  ("summary", orEmpty (ApiDocumentation.summary d)).
Definition remarksField (d : ApiDocumentation.t) : string * JsValue :=
  ("remarks", orEmpty (ApiDocumentation.remarks d)).

(** ** The generator *)

(** [visitApiParam(astParam, refObject)]: [refObject] is the entry
    [documentation.parameters[param.name]], undefined when the parameter
    is not documented.  The entry is assigned to in place; the function
    returns the entry as it is afterwards. *)
Definition visitApiParam (astParam : AstParameter.t)
    (refObject : option IApiParameter.t) : option IApiParameter.t :=
  if negb (AstParameter.supportedName astParam) then refObject
  else
    match refObject with
    | Some entry =>
        Some (IApiParameter.mk
                (IApiParameter.name entry)
                (IApiParameter.description entry)
                (Some (AstParameter.isOptional astParam))
                (Some (AstParameter.isSpread astParam))
                (Some (AstParameter.type astParam)))
    | None => None
    end.

(** One round of [for (const param of params)
       this.visitApiParam(param, documentation.parameters[param.name])]:
    the map [documentation.parameters] after the call, the entry that the
    call assigned to standing where it stood. *)
Definition visitParam (parameters : JsObj IApiParameter.t)
    (param : AstParameter.t) : JsObj IApiParameter.t :=
  match visitApiParam param (js_get (AstParameter.name param) parameters) with
  | Some entry => js_set (AstParameter.name param) entry parameters
  | None => parameters
  end.

(** The map [documentation.parameters] after the whole loop. *)
Definition visitParams (params : list AstParameter.t)
    (parameters : JsObj IApiParameter.t) : JsObj IApiParameter.t :=
  foldl visitParam parameters params.

Definition visitAstEnumValue (astEnumValue : AstItemBase.t)
    (refObject : JsObject) : JsObject :=
  if negb (AstItemBase.supportedName astEnumValue) then refObject
  else
    let declaration := AstItemBase.declaration astEnumValue in
    let firstToken := declaration ≫= Declaration.getFirstToken in
    let lastToken := declaration ≫= Declaration.getLastToken in
    let value :=
      match lastToken with
      | Some token =>
          if Declaration.differ lastToken firstToken
          then Declaration.getText token else ""
      | None => ""
      end in
    let documentation := AstItemBase.documentation astEnumValue in
    js_set (AstItemBase.name astEnumValue)
      (JObject
         [("kind", JString (convertKindToJson (AstItemBase.kind astEnumValue)));
          ("value", JString value);
          deprecatedMessageField documentation;
          summaryField documentation;
          remarksField documentation;
          ("isBeta", isBetaOf documentation)])
      refObject.

(** The function item after the call (its parameter documentation is
    assigned to), and the container. *)
Definition visitAstFunction (astFunction : AstItemBase.t)
    (fields : AstFunction.t) (refObject : JsObject)
    : AstItemBase.t * JsObject :=
  if negb (AstItemBase.supportedName astFunction) then (astFunction, refObject)
  else
    let parameters :=
      visitParams (AstFunction.params fields)
        (ApiDocumentation.parameters (AstItemBase.documentation astFunction)) in
    let astFunction := AstItemBase.withParameters astFunction parameters in
    let documentation := AstItemBase.documentation astFunction in
    let returnValueNode :=
      JObject
        [("type", JString (AstFunction.returnType fields));
         ("description", asIs (ApiDocumentation.returnsMessage documentation))] in
    let newNode :=
      JObject
        [("kind", JString (convertKindToJson (AstItemBase.kind astFunction)));
         ("returnValue", returnValueNode);
         ("parameters", parametersNode parameters);
         deprecatedMessageField documentation;
         summaryField documentation;
         remarksField documentation;
         ("isBeta", isBetaOf documentation)] in
    (astFunction, js_set (AstItemBase.name astFunction) newNode refObject).

Definition visitAstModuleVariable (astModuleVariable : AstItemBase.t)
    (fields : AstModuleVariable.t) (refObject : JsObject) : JsObject :=
  let documentation := AstItemBase.documentation astModuleVariable in
  let newNode :=
    JObject
      [("kind", JString (convertKindToJson (AstItemBase.kind astModuleVariable)));
       ("type", JString (AstModuleVariable.type fields));
       ("value", JString (AstModuleVariable.value fields));
       deprecatedMessageField documentation;
       summaryField documentation;
       remarksField documentation;
       ("isBeta", isBetaOf documentation)] in
  js_set (AstItemBase.name astModuleVariable) newNode refObject.

(** The method item after the call, and the container. *)
Definition visitAstMethod (astMethod : AstItemBase.t) (fields : AstMethod.t)
    (refObject : JsObject) : AstItemBase.t * JsObject :=
  if negb (AstItemBase.supportedName astMethod) then (astMethod, refObject)
  else
    let parameters :=
      visitParams (AstMethod.params fields)
        (ApiDocumentation.parameters (AstItemBase.documentation astMethod)) in
    let astMethod := AstItemBase.withParameters astMethod parameters in
    let documentation := AstItemBase.documentation astMethod in
    let newNode :=
      if String.eqb (AstItemBase.name astMethod) "__constructor" then
        JObject
          [("kind", JString (convertKindToJson AstItemKind.Constructor));
           ("signature", JString (AstMethod.declarationLine fields));
           ("parameters", parametersNode parameters);
           deprecatedMessageField documentation;
           summaryField documentation;
           remarksField documentation]
      else
        let returnValueNode :=
          JObject
            [("type", JString (AstMethod.returnType fields));
             ("description",
              asIs (ApiDocumentation.returnsMessage documentation))] in
        JObject
          [("kind", JString (convertKindToJson (AstItemBase.kind astMethod)));
           ("signature", JString (AstMethod.declarationLine fields));
           ("accessModifier",
            JString
              match AstMethod.accessModifier fields with
              | Some modifier => ApiAccessModifier.lowerCaseName modifier
              | None => ""
              end);
           ("isOptional", JBool (AstMethod.isOptional fields));
           ("isStatic", JBool (AstMethod.isStatic fields));
           ("returnValue", returnValueNode);
           ("parameters", parametersNode parameters);
           deprecatedMessageField documentation;
           summaryField documentation;
           remarksField documentation;
           ("isBeta", isBetaOf documentation)] in
    (astMethod, js_set (AstItemBase.name astMethod) newNode refObject).

(** Reading [.kind] of an undefined [getDeclaration()]. *)
Definition noDeclaration : JsError :=
  TypeError "Cannot read property 'kind' of undefined".

Section Generator.

(** [ts.SyntaxKind.SetAccessor], a constant of the TypeScript compiler. *)
Variable SetAccessor : SyntaxKind.

Definition visitAstMember (astMember : AstItemBase.t)
    (refObject : JsObject) : Result JsObject :=
  if negb (AstItemBase.supportedName astMember) then Ok refObject
  else
    match AstItemBase.declaration astMember with
    | Some declaration =>
        Ok (js_set (AstItemBase.name astMember)
              (JString ("astMember-" +:+ pretty (Declaration.kind declaration)))
              refObject)
    | None => Throw noDeclaration
    end.

Definition visitAstProperty (astProperty : AstItemBase.t)
    (fields : AstProperty.t) (refObject : JsObject) : Result JsObject :=
  if negb (AstItemBase.supportedName astProperty) then Ok refObject
  else
    match AstItemBase.declaration astProperty with
    | Some declaration =>
        if N.eqb (Declaration.kind declaration) SetAccessor then Ok refObject
        else
          let documentation := AstItemBase.documentation astProperty in
          let newNode :=
            JObject
              [("kind",
                JString (convertKindToJson (AstItemBase.kind astProperty)));
               ("isOptional", JBool (AstProperty.isOptional fields));
               ("isReadOnly", JBool (AstProperty.isReadOnly fields));
               ("isStatic", JBool (AstProperty.isStatic fields));
               ("type", JString (AstProperty.type fields));
               deprecatedMessageField documentation;
               summaryField documentation;
               remarksField documentation;
               ("isBeta", isBetaOf documentation)] in
          Ok (js_set (AstItemBase.name astProperty) newNode refObject)
    | None => Throw noDeclaration
    end.

Section Handlers.

(** [this.visit], the method the container handlers call back. *)
Variable visit : AstItem → JsObject → Result (AstItem * JsObject).

(** [for (const astItem of members) this.visit(astItem, refObject)]:
    the members and the container after the loop. *)
Fixpoint visitEach (members : list AstItem) (refObject : JsObject)
    {struct members} : Result (list AstItem * JsObject) :=
  match members with
  | [] => Ok ([], refObject)
  | astItem :: rest =>
      do (astItem', refObject') <- visit astItem refObject;
      do (rest', refObject'') <- visitEach rest refObject';
      Ok (astItem' :: rest', refObject'')
  end.

(** The node is stored under the item's name before its members are
    visited, and [members] is attached to that same object when the
    member list is not empty.  The static [_methodCounter], which is set
    to 0 here and read nowhere, is left out. *)
Definition visitAstStructuredType (astStructuredType : AstItemBase.t)
    (fields : AstStructuredType.t) (members : list AstItem)
    (refObject : JsObject) : Result (list AstItem * JsObject) :=
  if negb (AstItemBase.supportedName astStructuredType)
  then Ok (members, refObject)
  else
    let kind :=
      if AstItemKind.eqb (AstItemBase.kind astStructuredType)
                         AstItemKind.Class
      then convertKindToJson AstItemKind.Class
      else if AstItemKind.eqb (AstItemBase.kind astStructuredType)
                              AstItemKind.Interface
      then convertKindToJson AstItemKind.Interface
      else "" in
    let documentation := AstItemBase.documentation astStructuredType in
    let structureNode : JsObject :=
      [("kind", JString kind);
       ("extends", JString (default "" (AstStructuredType.extends fields)));
       ("implements",
        JString (default "" (AstStructuredType.implements fields)));
       ("typeParameters",
        JArray (JString <$>
                  default [] (AstStructuredType.typeParameters fields)));
       deprecatedMessageField documentation;
       summaryField documentation;
       remarksField documentation;
       ("isBeta", isBetaOf documentation)] in
    let refObject :=
      js_set (AstItemBase.name astStructuredType)
             (JObject structureNode) refObject in
    match members with
    | [] => Ok (members, refObject)
    | _ :: _ =>
        do (members', membersNode) <- visitEach members [];
        Ok (members',
            js_set (AstItemBase.name astStructuredType)
              (JObject (js_set "members" (JObject membersNode)
                               structureNode))
              refObject)
    end.

(** The node, holding the [values] object, is stored under the item's
    name before the values are visited into that object. *)
Definition visitAstEnum (astEnum : AstItemBase.t)
    (members : list AstItem) (refObject : JsObject)
    : Result (list AstItem * JsObject) :=
  if negb (AstItemBase.supportedName astEnum) then Ok (members, refObject)
  else
    let documentation := AstItemBase.documentation astEnum in
    do (members', valuesNode) <- visitEach members [];
    let enumNode :=
      JObject
        [("kind", JString (convertKindToJson (AstItemBase.kind astEnum)));
         ("values", JObject valuesNode);
         deprecatedMessageField documentation;
         summaryField documentation;
         remarksField documentation;
         ("isBeta", isBetaOf documentation)] in
    Ok (members', js_set (AstItemBase.name astEnum) enumNode refObject).

(** The four keys are assigned before the members are visited into
    the [exports] object. *)
Definition visitAstPackage (astPackage : AstItemBase.t)
    (members : list AstItem) (refObject : JsObject)
    : Result (list AstItem * JsObject) :=
  let documentation := AstItemBase.documentation astPackage in
  let refObject :=
    js_set "kind"
      (JString (convertKindToJson (AstItemBase.kind astPackage)))
      refObject in
  let refObject :=
    js_set "summary" (asIs (ApiDocumentation.summary documentation))
      refObject in
  let refObject :=
    js_set "remarks" (asIs (ApiDocumentation.remarks documentation))
      refObject in
  do (members', membersNode) <- visitEach members [];
  Ok (members', js_set "exports" (JObject membersNode) refObject).

Definition visitAstNamespace (astNamespace : AstItemBase.t)
    (members : list AstItem) (refObject : JsObject)
    : Result (list AstItem * JsObject) :=
  if negb (AstItemBase.supportedName astNamespace)
  then Ok (members, refObject)
  else
    do (members', membersNode) <- visitEach members [];
    let documentation := AstItemBase.documentation astNamespace in
    let newNode :=
      JObject
        [("kind",
          JString (convertKindToJson (AstItemBase.kind astNamespace)));
         deprecatedMessageField documentation;
         summaryField documentation;
         remarksField documentation;
         ("isBeta", isBetaOf documentation);
         ("exports", JObject membersNode)] in
    Ok (members',
        js_set (AstItemBase.name astNamespace) newNode refObject).

(** Modelled from the spec: [AstItemVisitor.visit], the [super.visit]
    of the generator, which is not among the sources; section 4.1:
    dispatch by kind to the kind's handler, any other kind going to
    the placeholder handler [visitAstMember]. *)
Definition AstItemVisitor_visit (astItem : AstItem)
    (refObject : JsObject) : Result (AstItem * JsObject) :=
  match astItem with
  | StructuredType base fields members =>
      do (members', refObject') <-
        visitAstStructuredType base fields members refObject;
      Ok (StructuredType base fields members', refObject')
  | Enum base members =>
      do (members', refObject') <- visitAstEnum base members refObject;
      Ok (Enum base members', refObject')
  | EnumValue base => Ok (astItem, visitAstEnumValue base refObject)
  | Function base fields =>
      let (base', refObject') := visitAstFunction base fields refObject in
      Ok (Function base' fields, refObject')
  | Package base members =>
      do (members', refObject') <- visitAstPackage base members refObject;
      Ok (Package base members', refObject')
  | Namespace base members =>
      do (members', refObject') <- visitAstNamespace base members refObject;
      Ok (Namespace base members', refObject')
  | Property base fields =>
      do refObject' <- visitAstProperty base fields refObject;
      Ok (astItem, refObject')
  | ModuleVariable base fields =>
      Ok (astItem, visitAstModuleVariable base fields refObject)
  | Method base fields =>
      let (base', refObject') := visitAstMethod base fields refObject in
      Ok (Method base' fields, refObject')
  | Member base =>
      do refObject' <- visitAstMember base refObject;
      Ok (astItem, refObject')
  end.

End Handlers.

(** [ApiJsonGenerator.visit]: the item after the call and the target
    container after the call, or the exception thrown. *)
Fixpoint visit (astItem : AstItem) (refObject : JsObject) {struct astItem}
    : Result (AstItem * JsObject) :=
  match itemReleaseTag astItem with
  | ReleaseTag.None | ReleaseTag.Beta | ReleaseTag.Public =>
      AstItemVisitor_visit visit astItem refObject
  | _ => Ok (astItem, refObject) (* skip @alpha and @internal definitions *)
  end.

End Generator.

(** ** Saving and validating the document *)

(** What the generator does to the world outside, in the order in which
    it does it. *)
Inductive Event : Type :=
| Saved (jsonFilename : string) (jsonObject : JsValue)
| Validated (jsonObject : JsValue)
| Logged (message : string).

(** The files on disk, and the events so far. *)
Record World : Type := mkWorld {
  files : gmap string JsValue;
  events : list Event
}.

(** Modelled from the spec: [JsonFile.save] of node-core-library, which is
    not among the sources; section 4.4, step 2: the document is persisted
    to the output path. *)
Definition JsonFile_save (jsonObject : JsValue) (jsonFilename : string)
    (world : World) : World :=
  mkWorld (<[jsonFilename := jsonObject]> (files world))
          (events world ++ [Saved jsonFilename jsonObject]).

(** [console.log(message)] *)
Definition console_log (message : string) (world : World) : World :=
  mkWorld (files world) (events world ++ [Logged message]).

(** [IJsonSchemaErrorInfo] *)
Record IJsonSchemaErrorInfo : Type := mkErrorInfo {
  details : string
}.

Record Extractor : Type := mkExtractor {
  package : AstItem
}.

Section WriteJsonFile.

Variable SetAccessor : SyntaxKind.

(** [path.basename] and [os.EOL] of Node.js. *)
Variable basename : string → string.
Variable EOL : string.

(** The schema of [ApiJsonGenerator.jsonSchema], loaded on first use from
    [api-json.schema.json] and kept: the error that validating an object
    against it reports, if any. *)
Variable schemaError : JsValue → option IJsonSchemaErrorInfo.

(** [jsonSchema.validateObjectWithCallback(jsonObject, callback)], up to
    the call of the callback: the error the callback is called with. *)
Definition validateObject (jsonObject : JsValue) (world : World)
    : World * option IJsonSchemaErrorInfo :=
  (mkWorld (files world) (events world ++ [Validated jsonObject]),
   schemaError jsonObject).

(** [writeJsonFile(reportFilename, extractor)] on a generator whose
    [jsonOutput] field holds [jsonOutput]: the world after the call, and
    either the package and [jsonOutput] after a normal return or the
    exception thrown. *)
Definition writeJsonFile (reportFilename : string) (extractor : Extractor)
    (jsonOutput : JsObject) (world : World)
    : World * Result (AstItem * JsObject) :=
  match visit SetAccessor (package extractor) jsonOutput with
  | Throw e => (world, Throw e)
  | Ok (package', jsonOutput) =>
      (* Write the output before validating the schema, so we can debug it *)
      let world := JsonFile_save (JObject jsonOutput) reportFilename world in
      (* Validate that the output conforms to our JSON schema *)
      let (world, violation) := validateObject (JObject jsonOutput) world in
      match violation with
      | Some errorInfo =>
          let errorMessage :=
            basename reportFilename
            +:+ " does not conform to the expected schema -- please report this API Extractor bug:"
            +:+ EOL +:+ details errorInfo in
          (console_log (EOL +:+ "ERROR: " +:+ errorMessage +:+ EOL +:+ EOL)
                       world,
           Throw (Error errorMessage))
      | None => (world, Ok (package', jsonOutput))
      end
  end.

End WriteJsonFile.

(** ** Vocabulary of the properties *)

(** The container of a result, when the call returned. *)
Definition containerOf {A} (r : Result (A * JsObject)) : Result JsObject :=
  match r with
  | Ok (_, refObject) => Ok refObject
  | Throw e => Throw e
  end.

(** The item is tagged [@alpha] or [@internal]. *)
Definition suppressed (astItem : AstItem) : bool :=
  match itemReleaseTag astItem with
  | ReleaseTag.Alpha | ReleaseTag.Internal => true
  | _ => false
  end.

Definition itemSupportedName (astItem : AstItem) : bool :=
  AstItemBase.supportedName (itemBase astItem).

(** A property whose declaration is a set accessor. *)
Definition isSetter (SetAccessor : SyntaxKind) (astItem : AstItem) : bool :=
  match astItem with
  | Property base _ =>
      match AstItemBase.declaration base with
      | Some declaration => N.eqb (Declaration.kind declaration) SetAccessor
      | None => false
      end
  | _ => false
  end.

(** The item passes the visibility gate, has a supported name and is not
    a set accessor: it is neither suppressed nor skipped. *)
Definition emitted (SetAccessor : SyntaxKind) (astItem : AstItem) : bool :=
  negb (suppressed astItem) && itemSupportedName astItem
  && negb (isSetter SetAccessor astItem).

(** A member as the upstream model lists them: not a package (the package
    is the root of the tree), and, for a module variable, with a supported
    name. *)
Definition ordinaryMember (astItem : AstItem) : Prop :=
  match astItem with
  | Package _ _ => False
  | ModuleVariable base _ => AstItemBase.supportedName base = true
  | _ => True
  end.

(** The names of the members that are neither suppressed nor skipped, in
    the order of the list. *)
Definition emittedNames (SetAccessor : SyntaxKind) (members : list AstItem)
    : list string :=
  itemName <$> List.filter (emitted SetAccessor) members.

Definition isContainer (astItem : AstItem) : bool :=
  match astItem with
  | StructuredType _ _ _ | Enum _ _ | Namespace _ _ | Package _ _ => true
  | _ => false
  end.

Definition membersOf (astItem : AstItem) : list AstItem :=
  match astItem with
  | StructuredType _ _ members | Enum _ members
  | Namespace _ members | Package _ members => members
  | _ => []
  end.

(** The value of field [k] of the node stored under [name]. *)
Definition nodeField (name k : string) (refObject : JsObject) : option JsValue :=
  match js_get name refObject with
  | Some (JObject node) => js_get k node
  | _ => None
  end.

Definition asObject (v : option JsValue) : option JsObject :=
  match v with
  | Some (JObject o) => Some o
  | _ => None
  end.

(** The member container that a container item has put into the target:
    [members] of a structured type's node, [values] of an enum's node,
    [exports] of a namespace's node; the package writes [exports] into the
    target itself. *)
Definition memberContainer (astItem : AstItem) (refObject : JsObject)
    : option JsObject :=
  match astItem with
  | StructuredType base _ _ =>
      asObject (nodeField (AstItemBase.name base) "members" refObject)
  | Enum base _ =>
      asObject (nodeField (AstItemBase.name base) "values" refObject)
  | Namespace base _ =>
      asObject (nodeField (AstItemBase.name base) "exports" refObject)
  | Package _ _ => asObject (js_get "exports" refObject)
  | _ => None
  end.

Definition addKey (keys : list string) (k : string) : list string :=
  if existsb (String.eqb k) keys then keys else keys ++ [k].

(** The names in order, a name that comes again keeping its first place. *)
Definition firstOccurrences (names : list string) : list string :=
  foldl addKey [] names.


(** A parameter documentation entry without its signature fields. *)
Definition eraseEntry (entry : IApiParameter.t) : IApiParameter.t :=
  IApiParameter.mk (IApiParameter.name entry) (IApiParameter.description entry)
                   None None None.

Definition eraseParameters (parameters : JsObj IApiParameter.t)
    : JsObj IApiParameter.t :=
  map (λ entry, (fst entry, eraseEntry (snd entry))) parameters.

Definition eraseBase (base : AstItemBase.t) : AstItemBase.t :=
  AstItemBase.withParameters base
    (eraseParameters
       (ApiDocumentation.parameters (AstItemBase.documentation base))).

(** The item tree without the signature fields ([isOptional], [isSpread],
    [type]) of its parameter documentation entries. *)
Fixpoint eraseSignatures (astItem : AstItem) : AstItem :=
  match astItem with
  | StructuredType base fields members =>
      StructuredType (eraseBase base) fields (map eraseSignatures members)
  | Enum base members => Enum (eraseBase base) (map eraseSignatures members)
  | EnumValue base => EnumValue (eraseBase base)
  | Function base fields => Function (eraseBase base) fields
  | Package base members =>
      Package (eraseBase base) (map eraseSignatures members)
  | Namespace base members =>
      Namespace (eraseBase base) (map eraseSignatures members)
  | Property base fields => Property (eraseBase base) fields
  | ModuleVariable base fields => ModuleVariable (eraseBase base) fields
  | Method base fields => Method (eraseBase base) fields
  | Member base => Member (eraseBase base)
  end.

(** The value that the spec gives an enum value: the text of the last
    token when the declaration has more than one token. *)
Definition literalValue (declaration : option Declaration.t) : string :=
  match declaration with
  | Some d =>
      if Nat.ltb 1 (length (Declaration.tokens d))
      then default "" (last (Declaration.tokens d))
      else ""
  | None => ""
  end.

Definition declaredParams (astItem : AstItem) : list AstParameter.t :=
  match astItem with
  | Function _ fields => AstFunction.params fields
  | Method _ fields => AstMethod.params fields
  | _ => []
  end.

Definition documentedParams (astItem : AstItem) : JsObj IApiParameter.t :=
  ApiDocumentation.parameters (AstItemBase.documentation (itemBase astItem)).

(** The entry of a documented parameter once the declared parameter has
    been visited against it. *)
Definition withSignature (astParam : AstParameter.t) (entry : IApiParameter.t)
    : IApiParameter.t :=
  IApiParameter.mk (IApiParameter.name entry) (IApiParameter.description entry)
    (Some (AstParameter.isOptional astParam))
    (Some (AstParameter.isSpread astParam))
    (Some (AstParameter.type astParam)).

Definition constructorFields : list string :=
  ["kind"; "signature"; "parameters"; "deprecatedMessage"; "summary"; "remarks"].






(** *** Property names

    The association list stands for the object when every assignment
    [o[k] = v] adds the key [k] behind the keys that are there.  That is
    what JavaScript does but for two kinds of name: a canonical decimal
    numeral, which, as an array index, is enumerated before the other
    keys in numeric order, and [__proto__], the assignment to which sets
    the prototype of the object and adds no key.  What is stated of the
    order of keys, or of a whole container, is stated for the other
    names. *)

Definition isDigit (c : ascii) : bool :=
  N.leb 48 (N_of_ascii c) && N.leb (N_of_ascii c) 57.

(** A decimal numeral without a leading zero: the names among which the
    array indices are. *)
Definition integerLike (name : string) : bool :=
  match name with
  | EmptyString => false
  | String c rest =>
      forallb isDigit (String.list_ascii_of_string name)
      && (negb (Ascii.eqb c "0") || String.eqb rest "")
  end.

(** The assignment [o[name] = v] adds [name] as the last key of [o], or
    replaces the value where [name] stands. *)
Definition ordinaryName (name : string) : bool :=
  negb (String.eqb name "__proto__") && negb (integerLike name).

(** Every item of the tree has such a name. *)
Fixpoint ordinaryNames (astItem : AstItem) : bool :=
  ordinaryName (itemName astItem)
  && match astItem with
     | StructuredType _ _ members | Enum _ members
     | Package _ members | Namespace _ members =>
         forallb ordinaryNames members
     | _ => true
     end.

(** *** The item tree after the traversal

    The read-only law with its one exception: what the traversal
    assigns into the parameter documentation, said entry by entry. *)

(** The declared parameter whose signature the entry under [k] is left
    with: the last declared parameter of a supported name that is named
    [k]. *)
Definition lastDeclared (k : string) (params : list AstParameter.t)
    : option AstParameter.t :=
  last (List.filter
          (λ param, String.eqb k (AstParameter.name param)
                    && AstParameter.supportedName param)
          params).

(** The documentation entry under [k] after the traversal: with the
    optionality, spread flag and type of that declared parameter, its
    name and description as they were; as it was when no declared
    parameter of a supported name is named [k]. *)
Definition assignedEntry (params : list AstParameter.t) (k : string)
    (entry : IApiParameter.t) : IApiParameter.t :=
  match lastDeclared k params with
  | Some param => withSignature param entry
  | None => entry
  end.

(** The documentation map after the traversal.  An object has each key
    once; in a list that has a key again, the later entry is out of the
    reach of [parameters[k]] and stays as it is. *)
Fixpoint assignedParameters (params : list AstParameter.t)
    (parameters : JsObj IApiParameter.t) : JsObj IApiParameter.t :=
  match parameters with
  | [] => []
  | (k, entry) :: rest =>
      (k, assignedEntry params k entry)
      :: assignedParameters
           (List.filter
              (λ param, negb (String.eqb k (AstParameter.name param)))
              params)
           rest
  end.

Definition assignedBase (params : list AstParameter.t) (base : AstItemBase.t)
    : AstItemBase.t :=
  AstItemBase.withParameters base
    (assignedParameters params
       (ApiDocumentation.parameters (AstItemBase.documentation base))).

(** The item tree after the traversal: the documentation maps of the
    functions and methods that the traversal reaches and that have a
    supported name are assigned to; every other item, and everything
    below an item that is suppressed or has an unsupported name, is as
    it was. *)
Fixpoint afterTraversal (astItem : AstItem) : AstItem :=
  if suppressed astItem then astItem
  else
    match astItem with
    | Function base fields =>
        if AstItemBase.supportedName base
        then Function (assignedBase (AstFunction.params fields) base) fields
        else astItem
    | Method base fields =>
        if AstItemBase.supportedName base
        then Method (assignedBase (AstMethod.params fields) base) fields
        else astItem
    | StructuredType base fields members =>
        if AstItemBase.supportedName base
        then StructuredType base fields (map afterTraversal members)
        else astItem
    | Enum base members =>
        if AstItemBase.supportedName base
        then Enum base (map afterTraversal members)
        else astItem
    | Namespace base members =>
        if AstItemBase.supportedName base
        then Namespace base (map afterTraversal members)
        else astItem
    | Package base members => Package base (map afterTraversal members)
    | EnumValue _ | Property _ _ | ModuleVariable _ _ | Member _ => astItem
    end.

(** ** The laws as the spec words them *)

(** The order-preservation law as the spec words it, for one container
    item: the keys of the member container are the names of the members
    that are neither suppressed nor skipped, in their order. *)
Definition keyOrderLaw (SetAccessor : SyntaxKind) (astItem : AstItem) : Prop :=
  ∀ refObject astItem' refObject' container,
    emitted SetAccessor astItem = true →
    visit SetAccessor astItem refObject = Ok (astItem', refObject') →
    memberContainer astItem refObject' = Some container →
    js_keys container = emittedNames SetAccessor (membersOf astItem).

(** The read-only law as the spec words it, for one root item: after the
    traversal the tree holds the values it held before. *)
Definition treeUntouched (SetAccessor : SyntaxKind) (astItem : AstItem) : Prop :=
  ∀ refObject astItem' refObject',
    visit SetAccessor astItem refObject = Ok (astItem', refObject') →
    astItem' = astItem.


(** The sub-container law as the spec words it, for one container item
    that passes both gates: its node carries the sub-container. *)
Definition subContainerLaw (SetAccessor : SyntaxKind) (astItem : AstItem) : Prop :=
  ∀ refObject astItem' refObject',
    isContainer astItem = true →
    emitted SetAccessor astItem = true →
    visit SetAccessor astItem refObject = Ok (astItem', refObject') →
    is_Some (memberContainer astItem refObject').

(** The pass-through law as the spec words it, for one function or
    method: every declared parameter has an entry in the emitted
    [parameters] map. *)
Definition parameterLaw (SetAccessor : SyntaxKind) (astItem : AstItem) : Prop :=
  ∀ refObject astItem' refObject' param,
    emitted SetAccessor astItem = true →
    visit SetAccessor astItem refObject = Ok (astItem', refObject') →
    param ∈ declaredParams astItem →
    ∃ parameters entry,
      nodeField (itemName astItem) "parameters" refObject'
      = Some (JObject parameters)
      ∧ js_get (AstParameter.name param) parameters = Some entry.

(** ** Item trees used below *)

(** A module variable whose name the format cannot represent. *)
Definition unsupportedVariable : AstItem :=
  ModuleVariable
    (AstItemBase.mk "$scope" AstItemKind.ModuleVariable false
       (ApiDocumentation.mk None None None ReleaseTag.Public [] None) None)
    (AstModuleVariable.mk "string" "'x'").

(** A class with two overloads of a method [bar]. *)
Definition overloadedClass : AstItem :=
  let bar signature :=
    Method
      (AstItemBase.mk "bar" AstItemKind.Method true
         (ApiDocumentation.mk None None None ReleaseTag.Public [] None) None)
      (AstMethod.mk [] "void" None false false signature) in
  StructuredType
    (AstItemBase.mk "Foo" AstItemKind.Class true
       (ApiDocumentation.mk None None None ReleaseTag.Public [] None) None)
    (AstStructuredType.mk None None None)
    [bar "bar(): void;"; bar "bar(x: number): void;"].

(** A package with a function whose parameter [x] is documented. *)
Definition documentedPackage : AstItem :=
  Package
    (AstItemBase.mk "example-package" AstItemKind.Package true
       (ApiDocumentation.mk (Some []) (Some []) None ReleaseTag.None [] None)
       None)
    [Function
       (AstItemBase.mk "parse" AstItemKind.Function true
          (ApiDocumentation.mk (Some []) None None ReleaseTag.Public
             [("x", IApiParameter.mk "x" [JString "the text"] None None None)]
             (Some []))
          None)
       (AstFunction.mk [AstParameter.mk "x" true false false "string"]
                       "number")].

(** The constructor of a class, tagged Beta. *)
Definition betaConstructor : AstItem :=
  Method
    (AstItemBase.mk "__constructor" AstItemKind.Method true
       (ApiDocumentation.mk (Some []) None None ReleaseTag.Beta [] None) None)
    (AstMethod.mk [] "" (Some ApiAccessModifier.Private) false false
                  "constructor();").

(** A member of a kind that has no handler of its own. *)
Definition plainMember : AstItem :=
  Member
    (AstItemBase.mk "index" AstItemKind.Property true
       (ApiDocumentation.mk None None None ReleaseTag.Public [] None)
       (Some (Declaration.mk 157 ["[key: string]"; ":"; "number"]))).

(** A class without members. *)
Definition emptyClass : AstItem :=
  StructuredType
    (AstItemBase.mk "Marker" AstItemKind.Class true
       (ApiDocumentation.mk (Some []) None None ReleaseTag.Public [] None) None)
    (AstStructuredType.mk None None None)
    [].

(** A function that declares a parameter [x] and documents none. *)
Definition undocumentedFunction : AstItem :=
  Function
    (AstItemBase.mk "parse" AstItemKind.Function true
       (ApiDocumentation.mk (Some []) None None ReleaseTag.Public [] None) None)
    (AstFunction.mk [AstParameter.mk "x" true false false "string"] "number").

(** A function that declares [x] and [y] and documents [x]. *)
Definition halfDocumentedFunction : AstItem :=
  Function
    (AstItemBase.mk "parse" AstItemKind.Function true
       (ApiDocumentation.mk (Some []) None None ReleaseTag.Public
          [("x", IApiParameter.mk "x" [JString "the text"] None None None)]
          None)
       None)
    (AstFunction.mk [AstParameter.mk "x" true false false "string";
                     AstParameter.mk "y" true true false "number"]
                    "number").

(** A class whose members are, in this order: a method [zeta], the set
    accessor of [alpha], an internal method [hidden], a property [beta]. *)
Definition sampleClass : AstItem :=
  let documentation tag := ApiDocumentation.mk None None None tag [] None in
  StructuredType
    (AstItemBase.mk "Sample" AstItemKind.Class true
       (documentation ReleaseTag.Public) None)
    (AstStructuredType.mk None None None)
    [Method
       (AstItemBase.mk "zeta" AstItemKind.Method true
          (documentation ReleaseTag.Public) None)
       (AstMethod.mk [] "void" None false false "zeta(): void;");
     Property
       (AstItemBase.mk "alpha" AstItemKind.Property true
          (documentation ReleaseTag.Public)
          (Some (Declaration.mk 154 ["set"; "alpha"; "("; "v"; ")"; "{"; "}"])))
       (AstProperty.mk false false false "number");
     Method
       (AstItemBase.mk "hidden" AstItemKind.Method true
          (documentation ReleaseTag.Internal) None)
       (AstMethod.mk [] "void" None false false "hidden(): void;");
     Property
       (AstItemBase.mk "beta" AstItemKind.Property true
          (documentation ReleaseTag.Beta)
          (Some (Declaration.mk 149 ["beta"; ":"; "string"; ";"])))
       (AstProperty.mk false true false "string")].

(** The enum value [Red = 1]. *)
Definition redValue : AstItem :=
  EnumValue
    (AstItemBase.mk "Red" AstItemKind.EnumValue true
       (ApiDocumentation.mk None None None ReleaseTag.Public [] None)
       (Some (Declaration.mk 264 ["Red"; "="; "1"]))).

(** The package of section 8: ["example-package"] exports the Beta class
    [Foo] with the Public method [bar(x: number): string]. *)
Definition examplePackage : AstItem :=
  Package
    (AstItemBase.mk "example-package" AstItemKind.Package true
       (ApiDocumentation.mk (Some []) (Some []) None ReleaseTag.None [] None)
       None)
    [StructuredType
       (AstItemBase.mk "Foo" AstItemKind.Class true
          (ApiDocumentation.mk None None None ReleaseTag.Beta [] None) None)
       (AstStructuredType.mk None None None)
       [Method
          (AstItemBase.mk "bar" AstItemKind.Method true
             (ApiDocumentation.mk None None None ReleaseTag.Public
                [("x", IApiParameter.mk "x" [] None None None)] (Some []))
             None)
          (AstMethod.mk [AstParameter.mk "x" true false false "number"]
                        "string" None false false "bar(x: number): string;")]].

(** A package that exports one class, tagged Alpha, with a Public method. *)
Definition alphaClassPackage : AstItem :=
  Package
    (AstItemBase.mk "example-package" AstItemKind.Package true
       (ApiDocumentation.mk (Some []) (Some []) None ReleaseTag.None [] None)
       None)
    [StructuredType
       (AstItemBase.mk "Foo" AstItemKind.Class true
          (ApiDocumentation.mk None None None ReleaseTag.Alpha [] None) None)
       (AstStructuredType.mk None None None)
       [Method
          (AstItemBase.mk "bar" AstItemKind.Method true
             (ApiDocumentation.mk None None None ReleaseTag.Public [] None)
             None)
          (AstMethod.mk [] "void" None false false "bar(): void;")]].

(** A package without exports whose documentation has no summary. *)
Definition barePackage : AstItem :=
  Package
    (AstItemBase.mk "bare" AstItemKind.Package true
       (ApiDocumentation.mk None None None ReleaseTag.None [] None) None)
    [].

(** ** A run of [writeJsonFile] used below *)

(** The part of a path after its last slash. *)
Fixpoint lastSegment (segment path : string) : string :=
  match path with
  | EmptyString => segment
  | String c rest =>
      if Ascii.eqb c "/"%char then lastSegment "" rest
      else lastSegment (segment +:+ String c "") rest
  end.

Definition posixBasename (path : string) : string := lastSegment "" path.

(** The line feed. *)
Definition LF : string := String "010"%char "".

(** A schema that wants [summary] to be an array. *)
Definition summarySchema (document : JsValue) : option IJsonSchemaErrorInfo :=
  match document with
  | JObject props =>
      match js_get "summary" props with
      | Some (JArray _) => None
      | _ => Some (mkErrorInfo "#/summary: Expected type array")
      end
  | _ => Some (mkErrorInfo "#: Expected type object")
  end.

Definition emptyWorld : World := mkWorld ∅ [].

(** Induction on the item tree, members included. *)
Fixpoint AstItem_ind (P : AstItem → Prop)
    (HStructuredType : ∀ base fields members,
        Forall P members → P (StructuredType base fields members))
    (HEnum : ∀ base members, Forall P members → P (Enum base members))
    (HEnumValue : ∀ base, P (EnumValue base))
    (HFunction : ∀ base fields, P (Function base fields))
    (HPackage : ∀ base members, Forall P members → P (Package base members))
    (HNamespace : ∀ base members,
        Forall P members → P (Namespace base members))
    (HProperty : ∀ base fields, P (Property base fields))
    (HModuleVariable : ∀ base fields, P (ModuleVariable base fields))
    (HMethod : ∀ base fields, P (Method base fields))
    (HMember : ∀ base, P (Member base))
    (astItem : AstItem) {struct astItem} : P astItem :=
  let rec :=
    AstItem_ind P HStructuredType HEnum HEnumValue HFunction HPackage
      HNamespace HProperty HModuleVariable HMethod HMember in
  let all :=
    fix all (members : list AstItem) : Forall P members :=
      match members with
      | [] => List.Forall_nil P
      | astItem :: rest =>
          List.Forall_cons P astItem rest (rec astItem) (all rest)
      end in
  match astItem with
  | StructuredType base fields members =>
      HStructuredType base fields members (all members)
  | Enum base members => HEnum base members (all members)
  | EnumValue base => HEnumValue base
  | Function base fields => HFunction base fields
  | Package base members => HPackage base members (all members)
  | Namespace base members => HNamespace base members (all members)
  | Property base fields => HProperty base fields
  | ModuleVariable base fields => HModuleVariable base fields
  | Method base fields => HMethod base fields
  | Member base => HMember base
  end.

(** ** Vocabulary of the further properties *)

(** Assign the entries of [entries], in their order, into [refObject]. *)
Definition assignAll (entries refObject : JsObject) : JsObject :=
  foldl (λ target entry, js_set (fst entry) (snd entry) target)
        refObject entries.

(** [x !== undefined] *)
Definition isDefined {A} (x : option A) : bool :=
  match x with
  | Some _ => true
  | None => false
  end.

(** The property or placeholder member reads [getDeclaration().kind]
    where there is no declaration: it passes the visibility gate and the
    name check, and [getDeclaration()] is undefined. *)
Definition undeclared (astItem : AstItem) : bool :=
  match astItem with
  | Property base _ | Member base =>
      negb (suppressed astItem) && AstItemBase.supportedName base
      && negb (isDefined (AstItemBase.declaration base))
  | _ => false
  end.

(** Every property and placeholder member of the tree has a declaration. *)
Fixpoint hasDeclarations (astItem : AstItem) : bool :=
  match astItem with
  | Property base _ | Member base =>
      isDefined (AstItemBase.declaration base)
  | StructuredType _ _ members | Enum _ members
  | Package _ members | Namespace _ members =>
      forallb hasDeclarations members
  | EnumValue _ | Function _ _ | ModuleVariable _ _ | Method _ _ => true
  end.

(** The handler of the container item gets as far as the loop over its
    members: the item passes the visibility gate and, unless it is the
    package, the name check. *)
Definition entersMembers (astItem : AstItem) : bool :=
  negb (suppressed astItem)
  && match astItem with
     | Package _ _ => true
     | _ => itemSupportedName astItem
     end.

(** [Visits root astItem]: the traversal of [root] calls [visit] on
    [astItem], unless an exception ends it before. *)
Inductive Visits : AstItem → AstItem → Prop :=
| Visits_root (astItem : AstItem) : Visits astItem astItem
| Visits_member (container member astItem : AstItem) :
    entersMembers container = true →
    member ∈ membersOf container →
    Visits member astItem →
    Visits container astItem.

(** The node of the item has an [isBeta] field: every item but the
    package, a constructor and a placeholder member. *)
Definition hasIsBeta (astItem : AstItem) : bool :=
  match astItem with
  | Package _ _ | Member _ => false
  | Method base _ => negb (String.eqb (AstItemBase.name base) "__constructor")
  | _ => true
  end.

(** The declared parameters whose name is supported. *)
Definition supportedParamNames (astItem : AstItem) : list string :=
  AstParameter.name
    <$> List.filter AstParameter.supportedName (declaredParams astItem).

(** What the visit of the item alone writes into an empty object. *)
Definition ownEntries (SetAccessor : SyntaxKind) (astItem : AstItem) : JsObject :=
  match visit SetAccessor astItem [] with
  | Ok (_, own) => own
  | Throw _ => []
  end.

(** The keys of the root of the document. *)
Definition rootKeys : list string := ["kind"; "summary"; "remarks"; "exports"].

(** What the loop over the declared parameters makes of the entry that
    stands first under the name [k]. *)
Definition stamp (params : list AstParameter.t) (k : string)
    (entry : IApiParameter.t) : IApiParameter.t :=
  foldl (λ entry param,
           if String.eqb k (AstParameter.name param)
              && AstParameter.supportedName param
           then withSignature param entry else entry)
        entry params.


(** ** The command tasks of rush-stack-compiler

    [TscCmdTask] and [TslintCmdTask] hand callbacks to a command runner,
    which calls [onData] with each chunk that the tool writes to its
    standard output.  A JavaScript string is the list of its UTF-16 code
    units; what a callback writes to the terminal, or reports through the
    [fileError] and [fileWarning] functions of the task options, is the
    list of its outputs in the order of the calls. *)

Abbreviation CodeUnits := (list N).

(** The code units of a text of ASCII characters. *)
Definition codeUnits (text : string) : CodeUnits :=
  N_of_ascii <$> String.list_ascii_of_string text.

(** The white space and line terminators of ECMAScript, which
    [String.prototype.trim] strips and [\s] matches. *)
Definition isWhiteSpace (c : N) : bool :=
  existsb (N.eqb c)
    [9; 10; 11; 12; 13; 32; 160; 5760; 8232; 8233; 8239; 8287; 12288; 65279]%N
  || (N.leb 8192 c && N.leb c 8202).

Fixpoint trimStart (s : CodeUnits) : CodeUnits :=
  match s with
  | [] => []
  | c :: rest => if isWhiteSpace c then trimStart rest else s
  end.

Fixpoint trimEnd (s : CodeUnits) : CodeUnits :=
  match s with
  | [] => []
  | c :: rest =>
      match trimEnd rest with
      | [] => if isWhiteSpace c then [] else [c]
      | kept => c :: kept
      end
  end.

(** [s.trim()] *)
Definition trim (s : CodeUnits) : CodeUnits := trimEnd (trimStart s).

(** [s.split('\n')] *)
Fixpoint splitLines (s : CodeUnits) : list CodeUnits :=
  match s with
  | [] => [[]]
  | c :: rest =>
      if N.eqb c 10 then [] :: splitLines rest
      else
        match splitLines rest with
        | line :: lines => (c :: line) :: lines
        | [] => [[c]]
        end
  end.

(** The code unit is the letter, in either case: what a letter of a
    pattern with the flag [i] matches. *)
Definition isLetter (upper lower c : N) : bool := N.eqb c upper || N.eqb c lower.

(** [/\serror\s/i] matches at the start of [s]. *)
Definition errorWordAt (s : CodeUnits) : bool :=
  match s with
  | w1 :: e :: r1 :: r2 :: o :: r3 :: w2 :: _ =>
      isWhiteSpace w1
      && isLetter 69 101 e && isLetter 82 114 r1 && isLetter 82 114 r2
      && isLetter 79 111 o && isLetter 82 114 r3
      && isWhiteSpace w2
  | _ => false
  end.

(** [s.match(/\serror\s/i)] is not null. *)
Fixpoint matchesErrorWord (s : CodeUnits) : bool :=
  errorWordAt s
  || match s with
     | [] => false
     | _ :: rest => matchesErrorWord rest
     end.

(** What a task writes to its terminal. *)
Inductive TaskOutput : Type :=
| WriteLine (text : CodeUnits)
| WriteErrorLine (text : CodeUnits)
| WriteVerboseLine (text : string).

(** The [onData] of [TscCmdTask.invoke]. *)
Definition tscOnData (data : CodeUnits) : list TaskOutput :=
  let dataLines := splitLines data in
  flat_map
    (λ dataLine,
       let trimmedLine := trim dataLine in
       match trimmedLine with
       | [] => []
       | _ :: _ =>
           if matchesErrorWord trimmedLine
           then [WriteErrorLine trimmedLine]
           else [WriteLine trimmedLine]
       end)
    dataLines.

(** The task options that [TslintCmdTask] reads: [customArgs], an array
    or undefined, and [displayAsError]. *)
Record TslintOptions : Type := mkTslintOptions {
  customArgs : option (list string);
  displayAsError : bool
}.

(** [customArgs.indexOf(arg) !== -1] *)
Definition hasArg (arg : string) (customArgs : list string) : bool :=
  existsb (String.eqb arg) customArgs.

(** The getter [_customFormatterSpecified]. *)
Definition customFormatterSpecified (taskOptions : TslintOptions) : bool :=
  let customArgs := default [] (customArgs taskOptions) in
  hasArg "--formatters-dir" customArgs
  || hasArg "-s" customArgs
  || hasArg "--format" customArgs
  || hasArg "-t" customArgs.

(** What [TslintCmdTask.invoke] has done when it calls the command
    runner: the arguments it passes, the task options as they are then,
    and what it has written. *)
Record TslintInvocation : Type := mkTslintInvocation {
  args : list string;
  optionsAfter : TslintOptions;
  written : list TaskOutput
}.

(** [TslintCmdTask.invoke], up to the call of [runCmd].  [args] is the
    array [customArgs] itself when there is one, so that what is pushed
    onto [args] is pushed onto [customArgs]. *)
Definition tslintInvoke (srcFolderPath : string) (taskOptions : TslintOptions)
    : TslintInvocation :=
  let written :=
    if customFormatterSpecified taskOptions
    then [WriteVerboseLine
            ("A custom formatter has been specified in customArgs, so the default TSLint error logging "
             +:+ "has been disabled.")]
    else [] in
  let args := default [] (customArgs taskOptions) in
  let args :=
    if negb (customFormatterSpecified taskOptions)
    then args ++ ["--format"; "json"]
    else args in
  let args := args ++ ["--project"; srcFolderPath] in
  let optionsAfter :=
    match customArgs taskOptions with
    | Some _ => mkTslintOptions (Some args) (displayAsError taskOptions)
    | None => taskOptions
    end in
  mkTslintInvocation args optionsAfter written.

Section TslintOnData.

(** What [JSON.parse] returns is a JavaScript value of any shape, which
    the annotation [TSLint.IRuleFailureJson[]] does not check.  The
    values and the operations of the language and of Node.js that
    [onData] applies to them are kept abstract:
    - [parse dataStr] is [JSON.parse(dataStr)], [None] when it throws;
    - [iterate errors] are the values that [for (const error of errors)]
      goes through, [None] when [errors] cannot be iterated;
    - [getProperty v k] is [v.k], [None] when [v] is null or undefined;
    - [relative from to] is [path.relative(from, to)], [None] when it
      throws, as it does when [to] is no string;
    - [plusOne v] is [v + 1], a number or a string. *)
Variable Value : Type.
Variable parse : CodeUnits → option Value.
Variable iterate : Value → option (list Value).
Variable getProperty : Value → string → option Value.
Variable relative : string → Value → option string.
Variable plusOne : Value → Value.

(** What [onData] writes and reports: a line on the terminal, or a call
    of [fileError] ([asError]) or [fileWarning] of the task options.
    These callbacks are taken to return. *)
Inductive TslintOutput : Type :=
| Terminal (output : TaskOutput)
| FileIssue (asError : bool) (filePath : string)
            (line column errorCode message : Value).

(** One round of the loop: the call of [tslintErrorLogFn], or [None] when
    an exception ends the round before the call. *)
Definition reportFailure (projectFolderPath : string) (asError : bool)
    (error : Value) : option TslintOutput :=
  name ← getProperty error "name";
  pathFromRoot ← relative projectFolderPath name;
  startPosition ← getProperty error "startPosition";
  line ← getProperty startPosition "line";
  startPosition ← getProperty error "startPosition";
  character ← getProperty startPosition "character";
  ruleName ← getProperty error "ruleName";
  failure ← getProperty error "failure";
  Some (FileIssue asError pathFromRoot (plusOne line) (plusOne character)
                  ruleName failure).

(** The loop inside the [try] statement: an exception in one round
    leaves what the rounds before it have reported, and the [catch]
    clause writes [dataStr] as an error line. *)
Fixpoint reportFailures (projectFolderPath : string) (asError : bool)
    (dataStr : CodeUnits) (errors : list Value) : list TslintOutput :=
  match errors with
  | [] => []
  | error :: rest =>
      match reportFailure projectFolderPath asError error with
      | Some issue =>
          issue :: reportFailures projectFolderPath asError dataStr rest
      | None => [Terminal (WriteErrorLine dataStr)]
      end
  end.

(** The [onData] of [TslintCmdTask.invoke], called with the task options
    as they are at the time of the call. *)
Definition tslintOnData (projectFolderPath : string)
    (taskOptions : TslintOptions) (data : CodeUnits) : list TslintOutput :=
  if negb (customFormatterSpecified taskOptions) then
    let dataStr := trim data in
    match parse dataStr ≫= iterate with
    | Some errors =>
        reportFailures projectFolderPath (displayAsError taskOptions)
                       dataStr errors
    | None => [Terminal (WriteErrorLine dataStr)]
    end
  else [].

End TslintOnData.


(** ** Further item trees and texts used below *)

(** A function that declares [x] and documents [x] and a parameter [old]
    that it no longer has. *)
Definition staleDocFunction : AstItem :=
  Function
    (AstItemBase.mk "parse" AstItemKind.Function true
       (ApiDocumentation.mk (Some []) None None ReleaseTag.Public
          [("x", IApiParameter.mk "x" [JString "the text"] None None None);
           ("old", IApiParameter.mk "old" [JString "gone"] None None None)]
          None)
       None)
    (AstFunction.mk [AstParameter.mk "x" true false false "string"] "number").

(** A package that exports a class with a property that has no
    declaration. *)
Definition undeclaredPackage : AstItem :=
  Package
    (AstItemBase.mk "example-package" AstItemKind.Package true
       (ApiDocumentation.mk (Some []) (Some []) None ReleaseTag.None [] None)
       None)
    [StructuredType
       (AstItemBase.mk "Foo" AstItemKind.Class true
          (ApiDocumentation.mk None None None ReleaseTag.Public [] None) None)
       (AstStructuredType.mk None None None)
       [Property
          (AstItemBase.mk "size" AstItemKind.Property true
             (ApiDocumentation.mk None None None ReleaseTag.Public [] None)
             None)
          (AstProperty.mk false false false "number")]].

(** A class whose only member is internal. *)
Definition hollowClass : AstItem :=
  StructuredType
    (AstItemBase.mk "Hollow" AstItemKind.Class true
       (ApiDocumentation.mk None None None ReleaseTag.Public [] None) None)
    (AstStructuredType.mk None None None)
    [Method
       (AstItemBase.mk "hidden" AstItemKind.Method true
          (ApiDocumentation.mk None None None ReleaseTag.Internal [] None) None)
       (AstMethod.mk [] "void" None false false "hidden(): void;")].

(** A function that declares [a], [b] twice and [c], and documents [a]
    and [b]. *)
Definition repeatedParameterFunction : AstItem :=
  Function
    (AstItemBase.mk "merge" AstItemKind.Function true
       (ApiDocumentation.mk (Some []) None None ReleaseTag.Public
          [("a", IApiParameter.mk "a" [JString "the first"] None None None);
           ("b", IApiParameter.mk "b" [JString "the second"] None None None)]
          None)
       None)
    (AstFunction.mk [AstParameter.mk "a" true false false "string";
                     AstParameter.mk "b" true true false "number";
                     AstParameter.mk "b" true false true "string[]";
                     AstParameter.mk "c" true false false "boolean"]
                    "void").

(** A package that exports that function, the same function tagged
    Internal under another name, and a property. *)
Definition repeatedParameterPackage : AstItem :=
  Package
    (AstItemBase.mk "example-package" AstItemKind.Package true
       (ApiDocumentation.mk (Some []) (Some []) None ReleaseTag.None [] None)
       None)
    [repeatedParameterFunction;
     Function
       (AstItemBase.mk "mergeAll" AstItemKind.Function true
          (ApiDocumentation.mk (Some []) None None ReleaseTag.Internal
             [("a", IApiParameter.mk "a" [JString "the first"] None None None)]
             None)
          None)
       (AstFunction.mk [AstParameter.mk "a" true false false "string"] "void");
     Property
       (AstItemBase.mk "size" AstItemKind.Property true
          (ApiDocumentation.mk None None None ReleaseTag.Public
             [("a", IApiParameter.mk "a" [] None None None)] None)
          (Some (Declaration.mk 149 ["size"; ":"; "number"; ";"])))
       (AstProperty.mk false true false "number")].




(** ** Tactics *)

(** Take apart a run that returned. *)
Ltac ok_inv :=
  repeat match goal with
    | H : Ok _ = Ok _ |- _ => inversion H; subst; clear H
    | H : Throw _ = Ok _ |- _ => discriminate H
    | H : (_, _) = (_, _) |- _ => inversion H; subst; clear H
    | H : bind ?m _ = Ok _ |- _ =>
        let E := fresh "E" in
        destruct m as [?|] eqn:E; simpl in H
    | p : (_ * _)%type |- _ => destruct p
    end.

Ltac ok_inv_some :=
  repeat match goal with
    | H : Some _ = Some _ |- _ => inversion H; subst; clear H
    | H : None = Some _ |- _ => discriminate H
    end.

(** ** Objects: reading, assigning, key order *)

Lemma js_get_set_eq {A} (k : string) (v : A) (o : JsObj A) :
  js_get k (js_set k v o) = Some v.
Proof.
  induction o as [|[k' v'] o IH]; simpl.
  - by rewrite String.eqb_refl.
  - destruct (String.eqb k' k) eqn:E; simpl; by rewrite E.
Qed.

Lemma js_get_set_ne {A} (k k' : string) (v : A) (o : JsObj A) :
  k ≠ k' → js_get k' (js_set k v o) = js_get k' o.
Proof.
  intros Hne. induction o as [|[k0 v0] o IH]; simpl.
  - destruct (String.eqb k k') eqn:E; [|done].
    by apply String.eqb_eq in E.
  - destruct (String.eqb k0 k) eqn:E; simpl; [|by rewrite IH].
    apply String.eqb_eq in E. subst k0.
    destruct (String.eqb k k') eqn:E'; [|done].
    by apply String.eqb_eq in E'.
Qed.

Lemma js_keys_set {A} (k : string) (v : A) (o : JsObj A) :
  js_keys (js_set k v o) = addKey (js_keys o) k.
Proof.
  unfold addKey, js_keys.
  induction o as [|[k' v'] o IH]; simpl; [done|].
  rewrite (String.eqb_sym k k').
  destruct (String.eqb k' k); simpl; [done|].
  rewrite IH. by destruct (existsb (String.eqb k) (map fst o)).
Qed.

Lemma js_set_set {A} (k : string) (v w : A) (o : JsObj A) :
  js_set k v (js_set k w o) = js_set k v o.
Proof.
  induction o as [|[k' v'] o IH]; simpl.
  - by rewrite String.eqb_refl.
  - destruct (String.eqb k' k) eqn:E; simpl; rewrite E; [done|by rewrite IH].
Qed.

Lemma addKey_set_keys {A} (k : string) (v w : A) (o : JsObj A) :
  js_keys (js_set k v (js_set k w o)) = addKey (js_keys o) k.
Proof. by rewrite js_set_set, js_keys_set. Qed.

Lemma existsb_eqb_false (k : string) (keys : list string) :
  k ∉ keys → existsb (String.eqb k) keys = false.
Proof.
  induction keys as [|k' keys IH]; intros Hnotin; simpl; [done|].
  apply not_elem_of_cons in Hnotin as [Hne Hnotin].
  rewrite IH by done.
  destruct (String.eqb k k') eqn:E; [|done].
  by apply String.eqb_eq in E.
Qed.

(** Names that are pairwise distinct are all kept, in their order. *)
Lemma foldl_addKey_NoDup (names keys : list string) :
  NoDup (keys ++ names) → foldl addKey keys names = keys ++ names.
Proof.
  revert keys. induction names as [|k names IH]; intros keys Hnd; simpl.
  - by rewrite app_nil_r.
  - assert (Hk : k ∉ keys).
    { apply NoDup_app in Hnd as (_ & Hdisj & _).
      intros Hin. apply (Hdisj k Hin). left. }
    unfold addKey at 2. rewrite existsb_eqb_false by done.
    rewrite IH; rewrite <- app_assoc; done.
Qed.

Lemma firstOccurrences_NoDup (names : list string) :
  NoDup names → firstOccurrences names = names.
Proof. intros Hnd. by apply (foldl_addKey_NoDup names []). Qed.



(** ** The visitor: unfolding *)

Section Properties.

Variable SetAccessor : SyntaxKind.

Lemma visit_unfold (astItem : AstItem) (refObject : JsObject) :
  visit SetAccessor astItem refObject =
    if suppressed astItem then Ok (astItem, refObject)
    else AstItemVisitor_visit SetAccessor (visit SetAccessor)
           astItem refObject.
Proof.
  unfold suppressed.
  destruct astItem; simpl; by destruct (itemReleaseTag _).
Qed.

Lemma visit_suppressed (astItem : AstItem) (refObject : JsObject) :
  suppressed astItem = true →
  visit SetAccessor astItem refObject = Ok (astItem, refObject).
Proof. intros H. by rewrite visit_unfold, H. Qed.

Lemma visitEach_app (visit' : AstItem → JsObject → Result (AstItem * JsObject))
    (before after : list AstItem) (refObject : JsObject) :
  visitEach visit' (before ++ after) refObject =
    do (before', refObject') <- visitEach visit' before refObject;
    do (after', refObject'') <- visitEach visit' after refObject';
    Ok (before' ++ after', refObject'').
Proof.
  revert refObject.
  induction before as [|astItem before IH]; intros refObject; simpl.
  - by destruct (visitEach visit' after refObject) as [[? ?]|].
  - destruct (visit' astItem refObject) as [[astItem' refObject']|]; simpl;
      [|done].
    rewrite IH.
    destruct (visitEach visit' before refObject') as [[? ?]|]; simpl; [|done].
    by destruct (visitEach visit' after _) as [[? ?]|].
Qed.

(** A member whose visit returns with the container as it was leaves
    the container of the whole loop as it is without that member. *)
Lemma visitEach_without (before after : list AstItem) (astItem : AstItem)
    (refObject : JsObject) :
  (∀ target, visit SetAccessor astItem target = Ok (astItem, target)) →
  containerOf (visitEach (visit SetAccessor) (before ++ astItem :: after)
                         refObject)
  = containerOf (visitEach (visit SetAccessor) (before ++ after) refObject).
Proof.
  intros Hsilent. rewrite !visitEach_app.
  destruct (visitEach _ before refObject) as [[before' refObject']|]; simpl;
    [|done].
  rewrite Hsilent. simpl.
  by destruct (visitEach _ after refObject') as [[? ?]|].
Qed.

Lemma visitEach_without_suppressed (before after : list AstItem)
    (astItem : AstItem) (refObject : JsObject) :
  suppressed astItem = true →
  containerOf (visitEach (visit SetAccessor) (before ++ astItem :: after)
                         refObject)
  = containerOf (visitEach (visit SetAccessor) (before ++ after) refObject).
Proof.
  intros Hs. apply visitEach_without. intros target.
  by apply visit_suppressed.
Qed.

(** C1.  An item tagged Alpha or Internal makes [visit] return at once:
    the target container and the item are as before, so nothing of the
    item or of its descendants is written, and the loop over a member
    list that holds the item fills the container as it does without the
    item.  An item tagged None, Public or Beta is dispatched to the
    handler of its kind. *)
Theorem visit_visibility_gate (astItem : AstItem) (refObject : JsObject) :
  match itemReleaseTag astItem with
  | ReleaseTag.Alpha | ReleaseTag.Internal =>
      visit SetAccessor astItem refObject = Ok (astItem, refObject)
      ∧ ∀ (before after : list AstItem) (target : JsObject),
          containerOf (visitEach (visit SetAccessor)
                         (before ++ astItem :: after) target)
          = containerOf (visitEach (visit SetAccessor)
                           (before ++ after) target)
  | ReleaseTag.None | ReleaseTag.Public | ReleaseTag.Beta =>
      visit SetAccessor astItem refObject
      = AstItemVisitor_visit SetAccessor (visit SetAccessor)
          astItem refObject
  end.
Proof.
  pose proof (visit_unfold astItem refObject) as Hv.
  pose proof (λ before after target,
                visitEach_without_suppressed before after astItem target)
    as Hloop.
  unfold suppressed in Hv, Hloop.
  destruct (itemReleaseTag astItem); auto.
Qed.

(** ** Unsupported names *)

(** Every handler but the module variable's and the package's returns
    at once on an unsupported name: nothing is written. *)
Lemma unsupported_name_skipped (astItem : AstItem) (refObject : JsObject) :
  itemSupportedName astItem = false →
  match astItem with
  | ModuleVariable _ _ | Package _ _ => True
  | _ => visit SetAccessor astItem refObject = Ok (astItem, refObject)
  end.
Proof.
  intros Hname. rewrite visit_unfold.
  destruct astItem; try done; unfold itemSupportedName in Hname;
    simpl in *; destruct (suppressed _); try done;
    unfold visitAstStructuredType, visitAstEnum, visitAstEnumValue,
      visitAstFunction, visitAstNamespace, visitAstProperty,
      visitAstMethod, visitAstMember;
    by rewrite Hname.
Qed.

(** The siblings of a member of an unsupported name, other than a module
    variable or a package, get the entries they get without it. *)
Lemma visitEach_without_unsupported (before after : list AstItem)
    (astItem : AstItem) (refObject : JsObject) :
  itemSupportedName astItem = false →
  match astItem with
  | ModuleVariable _ _ | Package _ _ => True
  | _ =>
      containerOf (visitEach (visit SetAccessor) (before ++ astItem :: after)
                             refObject)
      = containerOf (visitEach (visit SetAccessor) (before ++ after) refObject)
  end.
Proof.
  intros Hname.
  pose proof (λ target, unsupported_name_skipped astItem target Hname)
    as Hskipped.
  destruct astItem; try done; by apply visitEach_without.
Qed.

(** The handler of module variables stores a node under the name
    whatever [supportedName] is. *)
Lemma visitAstModuleVariable_writes (base : AstItemBase.t)
    (fields : AstModuleVariable.t) (refObject : JsObject) :
  ∃ node,
    js_get (AstItemBase.name base)
           (visitAstModuleVariable base fields refObject)
    = Some (JObject node).
Proof. eexists. apply js_get_set_eq. Qed.

(** ** Key order *)

(** What one visit does to the keys of its target. *)
Lemma visit_keys (astItem astItem' : AstItem) (refObject refObject' : JsObject) :
  ordinaryMember astItem →
  visit SetAccessor astItem refObject = Ok (astItem', refObject') →
  js_keys refObject' =
    if emitted SetAccessor astItem
    then addKey (js_keys refObject) (itemName astItem)
    else js_keys refObject.
Proof.
  intros Hord. rewrite visit_unfold. unfold emitted, itemSupportedName, itemName.
  destruct (suppressed astItem); simpl; [intros; by ok_inv|].
  destruct astItem as [base fields members|base members|base|base fields
                      |base members|base members|base fields|base fields
                      |base fields|base]; simpl in *.
  - unfold visitAstStructuredType.
    destruct (AstItemBase.supportedName base); simpl; [|intros; by ok_inv].
    destruct members; simpl; intros; ok_inv;
      by rewrite ?addKey_set_keys, ?js_keys_set.
  - unfold visitAstEnum.
    destruct (AstItemBase.supportedName base); simpl; [|intros; by ok_inv].
    intros; ok_inv. by rewrite js_keys_set.
  - unfold visitAstEnumValue.
    destruct (AstItemBase.supportedName base); simpl; intros; ok_inv;
      by rewrite ?js_keys_set.
  - unfold visitAstFunction.
    destruct (AstItemBase.supportedName base); simpl; intros; ok_inv;
      by rewrite ?js_keys_set.
  - done.
  - unfold visitAstNamespace.
    destruct (AstItemBase.supportedName base); simpl; [|intros; by ok_inv].
    intros; ok_inv. by rewrite js_keys_set.
  - unfold visitAstProperty.
    destruct (AstItemBase.supportedName base); simpl; [|intros; by ok_inv].
    destruct (AstItemBase.declaration base) as [declaration|]; simpl;
      [|intros; by ok_inv].
    destruct (N.eqb _ SetAccessor); simpl; intros; ok_inv;
      by rewrite ?js_keys_set.
  - unfold visitAstModuleVariable. rewrite Hord. simpl.
    intros; ok_inv. by rewrite js_keys_set.
  - unfold visitAstMethod.
    destruct (AstItemBase.supportedName base); simpl; intros; ok_inv;
      by rewrite ?js_keys_set.
  - unfold visitAstMember.
    destruct (AstItemBase.supportedName base); simpl; [|intros; by ok_inv].
    destruct (AstItemBase.declaration base) as [declaration|]; simpl;
      intros; ok_inv; by rewrite ?js_keys_set.
Qed.

(** What the loop over a member list does to the keys of its target. *)
Lemma visitEach_keys (members members' : list AstItem)
    (refObject refObject' : JsObject) :
  Forall ordinaryMember members →
  visitEach (visit SetAccessor) members refObject = Ok (members', refObject') →
  js_keys refObject'
  = foldl addKey (js_keys refObject) (emittedNames SetAccessor members).
Proof.
  unfold emittedNames.
  intros Hord. revert members' refObject.
  induction Hord as [|astItem members Hitem Hord IH];
    intros members' refObject Hv; simpl in *; [by ok_inv|].
  ok_inv.
  match goal with H : visit _ _ _ = Ok _ |- _ =>
    apply visit_keys in H; [|done] end.
  match goal with H : visitEach _ _ _ = Ok _ |- _ => apply IH in H end.
  match goal with H : js_keys refObject' = _, H' : js_keys _ = _ |- _ =>
    rewrite H, H' end.
  by destruct (emitted SetAccessor astItem).
Qed.

Lemma nodeField_set (name k : string) (node refObject : JsObject) :
  nodeField name k (js_set name (JObject node) refObject) = js_get k node.
Proof. unfold nodeField. by rewrite js_get_set_eq. Qed.

(** The member container of an emitted container item is the object
    that the loop over its members has filled, starting empty. *)
Lemma memberContainer_visitEach (astItem astItem' : AstItem)
    (refObject refObject' container : JsObject) :
  emitted SetAccessor astItem = true →
  visit SetAccessor astItem refObject = Ok (astItem', refObject') →
  memberContainer astItem refObject' = Some container →
  ∃ members',
    visitEach (visit SetAccessor) (membersOf astItem) []
    = Ok (members', container).
Proof.
  unfold emitted, itemSupportedName. rewrite visit_unfold.
  destruct (suppressed astItem); simpl; [done|].
  destruct astItem as [base fields members|base members|base|base fields
                      |base members|base members|base fields|base fields
                      |base fields|base]; simpl; try done.
  - unfold visitAstStructuredType.
    destruct (AstItemBase.supportedName base); simpl; [|done].
    intros _. destruct members as [|member members].
    + intros Hv. ok_inv. by rewrite nodeField_set.
    + intros Hv. ok_inv. rewrite nodeField_set. simpl.
      intros Hc. ok_inv_some. eauto.
  - unfold visitAstEnum.
    destruct (AstItemBase.supportedName base); simpl; [|done].
    intros _ Hv. ok_inv. rewrite nodeField_set. simpl.
    intros Hc. ok_inv_some. eauto.
  - unfold visitAstPackage. intros _ Hv. ok_inv.
    rewrite js_get_set_eq. simpl. intros Hc. ok_inv_some. eauto.
  - unfold visitAstNamespace.
    destruct (AstItemBase.supportedName base); simpl; [|done].
    intros _ Hv. ok_inv. rewrite nodeField_set. simpl.
    intros Hc. ok_inv_some. eauto.
Qed.

(** C3.  For a container item that is emitted, whose members are as the
    upstream model lists them and whose emitted members have names that
    an assignment adds as the last key (no array index, not
    [__proto__]): the keys of its member container are the names of its
    members that are neither suppressed nor skipped, in the order of the
    member list, a name that comes again keeping only its first place;
    when those names are distinct, the keys are exactly those names in
    that order. *)
Theorem member_key_order (astItem astItem' : AstItem)
    (refObject refObject' container : JsObject) :
  emitted SetAccessor astItem = true →
  Forall ordinaryMember (membersOf astItem) →
  Forall (λ name, ordinaryName name = true)
         (emittedNames SetAccessor (membersOf astItem)) →
  visit SetAccessor astItem refObject = Ok (astItem', refObject') →
  memberContainer astItem refObject' = Some container →
  js_keys container
  = firstOccurrences (emittedNames SetAccessor (membersOf astItem))
  ∧ (NoDup (emittedNames SetAccessor (membersOf astItem)) →
     js_keys container = emittedNames SetAccessor (membersOf astItem)).
Proof.
  intros Hemitted Hord _ Hv Hc.
  destruct (memberContainer_visitEach _ _ _ _ _ Hemitted Hv Hc)
    as [members' Hloop].
  apply visitEach_keys in Hloop; [|done].
  split; [done|].
  intros Hnd. rewrite Hloop. by apply firstOccurrences_NoDup.
Qed.

(** ** Constructors *)

(** C4.  A method named [__constructor] that is emitted gets a node of
    kind ["constructor"] whose fields are exactly kind, signature,
    parameters, deprecatedMessage, summary and remarks, whatever its
    access modifier and other method fields are; accessModifier,
    isOptional, isStatic and returnValue are not among them. *)
Theorem constructor_node (base : AstItemBase.t) (fields : AstMethod.t)
    (refObject : JsObject) :
  suppressed (Method base fields) = false →
  AstItemBase.supportedName base = true →
  AstItemBase.name base = "__constructor" →
  ∃ astItem' refObject' node,
    visit SetAccessor (Method base fields) refObject
    = Ok (astItem', refObject')
    ∧ js_get "__constructor" refObject' = Some (JObject node)
    ∧ js_get "kind" node = Some (JString "constructor")
    ∧ js_keys node = constructorFields
    ∧ Forall (λ k, js_get k node = None)
        ["accessModifier"; "isOptional"; "isStatic"; "returnValue"].
Proof.
  intros Hgate Hsupported Hname.
  rewrite visit_unfold, Hgate. simpl.
  unfold visitAstMethod. rewrite Hsupported. simpl.
  rewrite Hname. simpl.
  do 3 eexists. split; [reflexivity|].
  split; [apply js_get_set_eq|].
  split; [reflexivity|]. split; [reflexivity|].
  repeat constructor.
Qed.

(** ** Enum values *)

(** The value that [visitAstEnumValue] computes from the first and last
    token is the text of the last token of a declaration of more than one
    token, and empty otherwise. *)
Lemma enum_value_text (declaration : option Declaration.t) :
  match declaration ≫= Declaration.getLastToken with
  | Some token =>
      if Declaration.differ (declaration ≫= Declaration.getLastToken)
                            (declaration ≫= Declaration.getFirstToken)
      then Declaration.getText token else ""
  | None => ""
  end = literalValue declaration.
Proof.
  destruct declaration as [[kind tokens]|]; [|done].
  destruct tokens as [|first [|second rest]]; try done.
  simpl. unfold literalValue, Declaration.getLastToken, Declaration.getFirstToken.
  simpl. destruct (last (second :: rest)) eqn:Hlast; simpl; [done|].
  by apply last_None in Hlast.
Qed.

(** C10.  An enum value that is emitted gets a node whose [value] is
    the text of the last token of its declaration when the declaration
    has more than one token, and the empty string otherwise, also when
    there is no declaration. *)
Theorem enum_value_literal (base : AstItemBase.t) (refObject : JsObject) :
  suppressed (EnumValue base) = false →
  AstItemBase.supportedName base = true →
  ∃ refObject' node,
    visit SetAccessor (EnumValue base) refObject
    = Ok (EnumValue base, refObject')
    ∧ js_get (AstItemBase.name base) refObject' = Some (JObject node)
    ∧ js_get "value" node
      = Some (JString (literalValue (AstItemBase.declaration base))).
Proof.
  intros Hgate Hsupported.
  rewrite visit_unfold, Hgate. simpl.
  unfold visitAstEnumValue. rewrite Hsupported. simpl.
  do 2 eexists. split; [reflexivity|].
  split; [apply js_get_set_eq|].
  simpl. by rewrite enum_value_text.
Qed.

(** ** Saving before validating *)

Section SaveThenValidate.

(** [path.basename], [os.EOL] and the schema, as in [writeJsonFile]. *)
Variable basename : string → string.
Variable EOL : string.
Variable schemaError : JsValue → option IJsonSchemaErrorInfo.

(** C5.  When the traversal has built the document, [writeJsonFile]
    first saves it to the output path and then validates it, and the file
    at the output path holds the document whatever the validation says.
    If the document violates the schema the call throws an error whose
    message is the base name of the output file, the fixed text, a line
    break and the validator's details, after logging it, and the file
    holds the invalid document; the call returns normally only if the
    document conforms. *)
Theorem writeJsonFile_saves_then_validates (reportFilename : string)
    (extractor : Extractor) (jsonOutput : JsObject) (world : World)
    (package' : AstItem) (document : JsObject) :
  visit SetAccessor (package extractor) jsonOutput = Ok (package', document) →
  let (world', result) :=
    writeJsonFile SetAccessor basename EOL schemaError
      reportFilename extractor jsonOutput world in
  files world' !! reportFilename = Some (JObject document)
  ∧ match schemaError (JObject document) with
    | Some errorInfo =>
        let errorMessage :=
          basename reportFilename
          +:+ " does not conform to the expected schema -- please report this API Extractor bug:"
          +:+ EOL +:+ details errorInfo in
        result = Throw (Error errorMessage)
        ∧ events world'
          = events world
            ++ [Saved reportFilename (JObject document);
                Validated (JObject document);
                Logged (EOL +:+ "ERROR: " +:+ errorMessage +:+ EOL +:+ EOL)]
    | None =>
        result = Ok (package', document)
        ∧ events world'
          = events world
            ++ [Saved reportFilename (JObject document);
                Validated (JObject document)]
    end.
Proof.
  intros Hvisit. unfold writeJsonFile, validateObject. rewrite Hvisit.
  destruct (schemaError (JObject document)) as [errorInfo|]; simpl;
    (split; [apply lookup_insert_eq|]);
    (split; [reflexivity|]);
    by rewrite <- !app_assoc.
Qed.

End SaveThenValidate.

(** ** The fields of emitted nodes *)


(** ** Sub-containers *)

(** C8.  An enum, a namespace and the package, when emitted, always
    carry their sub-container ([values], [exports], [exports]), also
    when they have no members.  A structured type carries [members]
    when its member list is not empty; when the list is empty its node
    has no [members] field. *)
Theorem sub_container_presence (astItem astItem' : AstItem)
    (refObject refObject' : JsObject) :
  emitted SetAccessor astItem = true →
  visit SetAccessor astItem refObject = Ok (astItem', refObject') →
  match astItem with
  | StructuredType base _ members =>
      match members with
      | [] => nodeField (AstItemBase.name base) "members" refObject' = None
      | _ :: _ => is_Some (memberContainer astItem refObject')
      end
  | Enum _ _ | Namespace _ _ | Package _ _ =>
      is_Some (memberContainer astItem refObject')
  | _ => True
  end.
Proof.
  unfold emitted, itemSupportedName. rewrite visit_unfold.
  destruct (suppressed astItem); simpl; [done|].
  destruct astItem as [base fields members|base members|base|base fields
                      |base members|base members|base fields|base fields
                      |base fields|base]; simpl; try done.
  - unfold visitAstStructuredType.
    destruct (AstItemBase.supportedName base); simpl; [|done].
    intros _. destruct members as [|member members]; intros Hv; ok_inv;
      rewrite nodeField_set; simpl; by eauto.
  - unfold visitAstEnum.
    destruct (AstItemBase.supportedName base); simpl; [|done].
    intros _ Hv. ok_inv. rewrite nodeField_set. simpl. by eauto.
  - unfold visitAstPackage. intros _ Hv. ok_inv.
    rewrite js_get_set_eq. simpl. by eauto.
  - unfold visitAstNamespace.
    destruct (AstItemBase.supportedName base); simpl; [|done].
    intros _ Hv. ok_inv. rewrite nodeField_set. simpl. by eauto.
Qed.

(** ** Parameters *)

Lemma js_keys_set_present {A} (k : string) (v w : A) (o : JsObj A) :
  js_get k o = Some w → js_keys (js_set k v o) = js_keys o.
Proof.
  unfold js_keys.
  induction o as [|[k' v'] o IH]; simpl; [done|].
  destruct (String.eqb k' k); simpl; [done|].
  intros Hget. by rewrite IH.
Qed.

Lemma js_get_eq_dec {A} (k k' : string) (v : A) (o : JsObj A) :
  js_get k' (js_set k v o) = if String.eqb k k' then Some v else js_get k' o.
Proof.
  destruct (String.eqb k k') eqn:E.
  - apply String.eqb_eq in E. subst. apply js_get_set_eq.
  - apply String.eqb_neq in E. by apply js_get_set_ne.
Qed.

Lemma visitParams_cons (param : AstParameter.t) (params : list AstParameter.t)
    (parameters : JsObj IApiParameter.t) :
  visitParams (param :: params) parameters
  = visitParams params (visitParam parameters param).
Proof. reflexivity. Qed.

Lemma visitParam_keys (param : AstParameter.t)
    (parameters : JsObj IApiParameter.t) :
  js_keys (visitParam parameters param) = js_keys parameters.
Proof.
  unfold visitParam, visitApiParam.
  destruct (js_get _ parameters) as [entry|] eqn:Hget;
    destruct (AstParameter.supportedName param); simpl; try done;
    by apply js_keys_set_present with entry.
Qed.

Lemma visitParam_get (param : AstParameter.t)
    (parameters : JsObj IApiParameter.t) (k : string) :
  js_get k (visitParam parameters param)
  = if String.eqb (AstParameter.name param) k
       && AstParameter.supportedName param
    then withSignature param <$> js_get k parameters
    else js_get k parameters.
Proof.
  unfold visitParam, visitApiParam.
  destruct (String.eqb (AstParameter.name param) k) eqn:E; simpl.
  - apply String.eqb_eq in E. subst k.
    destruct (AstParameter.supportedName param); simpl;
      destruct (js_get _ parameters) as [entry|] eqn:Hget; simpl;
      by rewrite ?js_get_set_eq.
  - destruct (AstParameter.supportedName param); simpl;
      destruct (js_get (AstParameter.name param) parameters); simpl;
      by rewrite ?js_get_eq_dec, ?E.
Qed.

Lemma visitParams_keys (params : list AstParameter.t)
    (parameters : JsObj IApiParameter.t) :
  js_keys (visitParams params parameters) = js_keys parameters.
Proof.
  revert parameters.
  induction params as [|param params IH]; intros parameters; [done|].
  by rewrite visitParams_cons, IH, visitParam_keys.
Qed.

(** A name without a documentation entry has none after the loop. *)
Lemma visitParams_undocumented (params : list AstParameter.t)
    (parameters : JsObj IApiParameter.t) (k : string) :
  js_get k parameters = None → js_get k (visitParams params parameters) = None.
Proof.
  revert parameters.
  induction params as [|param params IH]; intros parameters Hget; [done|].
  rewrite visitParams_cons. apply IH.
  rewrite visitParam_get, Hget. by destruct (_ && _).
Qed.

(** A documentation entry is still there after the loop, with its name
    and description. *)
Lemma visitParams_documented (params : list AstParameter.t)
    (parameters : JsObj IApiParameter.t) (k : string) (entry : IApiParameter.t) :
  js_get k parameters = Some entry →
  ∃ entry',
    js_get k (visitParams params parameters) = Some entry'
    ∧ eraseEntry entry' = eraseEntry entry.
Proof.
  revert parameters entry.
  induction params as [|param params IH]; intros parameters entry Hget;
    [by eauto|].
  rewrite visitParams_cons.
  destruct (IH (visitParam parameters param)
              (if String.eqb (AstParameter.name param) k
                  && AstParameter.supportedName param
               then withSignature param entry else entry))
    as (entry' & Hget' & Herase).
  { rewrite visitParam_get, Hget. by destruct (_ && _). }
  exists entry'. split; [done|]. rewrite Herase. by destruct (_ && _).
Qed.

(** Parameters of other names leave an entry as it is. *)
Lemma visitParams_other (params : list AstParameter.t)
    (parameters : JsObj IApiParameter.t) (k : string) :
  k ∉ AstParameter.name <$> params →
  js_get k (visitParams params parameters) = js_get k parameters.
Proof.
  revert parameters.
  induction params as [|param params IH]; intros parameters Hnotin; [done|].
  rewrite fmap_cons in Hnotin. apply not_elem_of_cons in Hnotin as [Hne Hnotin].
  rewrite visitParams_cons, IH, visitParam_get by done.
  destruct (String.eqb (AstParameter.name param) k) eqn:E; [|done].
  apply String.eqb_eq in E. by subst.
Qed.

Lemma visitParam_cons_entry (param : AstParameter.t) (k : string)
    (entry : IApiParameter.t) (parameters : JsObj IApiParameter.t) :
  visitParam ((k, entry) :: parameters) param
  = if String.eqb k (AstParameter.name param)
    then (k, if AstParameter.supportedName param
             then withSignature param entry else entry) :: parameters
    else (k, entry) :: visitParam parameters param.
Proof.
  unfold visitParam, visitApiParam. simpl.
  destruct (String.eqb k (AstParameter.name param)); simpl.
  - by destruct (AstParameter.supportedName param).
  - destruct (AstParameter.supportedName param); simpl;
      by destruct (js_get (AstParameter.name param) parameters).
Qed.

Lemma visitParams_cons_entry (params : list AstParameter.t) (k : string)
    (entry : IApiParameter.t) (parameters : JsObj IApiParameter.t) :
  visitParams params ((k, entry) :: parameters)
  = (k, stamp params k entry)
    :: visitParams
         (List.filter (λ param, negb (String.eqb k (AstParameter.name param)))
                      params)
         parameters.
Proof.
  revert entry parameters.
  induction params as [|param params IH]; intros entry parameters; [done|].
  rewrite visitParams_cons, visitParam_cons_entry. unfold stamp. simpl.
  destruct (String.eqb k (AstParameter.name param)); simpl.
  - by rewrite IH.
  - by rewrite IH.
Qed.

Lemma withSignature_erase (param : AstParameter.t)
    (entry1 entry2 : IApiParameter.t) :
  eraseEntry entry1 = eraseEntry entry2 →
  withSignature param entry1 = withSignature param entry2.
Proof.
  unfold eraseEntry, withSignature. intros H. inversion H. congruence.
Qed.

(** Two entries of one name and description come out of the loop equal,
    or both untouched. *)
Lemma stamp_erase (params : list AstParameter.t) (k : string)
    (entry1 entry2 : IApiParameter.t) :
  eraseEntry entry1 = eraseEntry entry2 →
  stamp params k entry1 = stamp params k entry2
  ∨ (stamp params k entry1 = entry1 ∧ stamp params k entry2 = entry2).
Proof.
  unfold stamp. revert entry1 entry2.
  induction params as [|param params IH]; intros entry1 entry2 Herase;
    simpl; [by right|].
  destruct (String.eqb k (AstParameter.name param)
            && AstParameter.supportedName param).
  - left. by rewrite (withSignature_erase _ _ _ Herase).
  - by apply IH.
Qed.

Lemma stamp_keeps_erased (params : list AstParameter.t) (k : string)
    (entry : IApiParameter.t) :
  eraseEntry (stamp params k entry) = eraseEntry entry.
Proof.
  unfold stamp. revert entry.
  induction params as [|param params IH]; intros entry; simpl; [done|].
  rewrite IH. by destruct (_ && _).
Qed.

Lemma visitParams_unsupported (params : list AstParameter.t)
    (parameters : JsObj IApiParameter.t) (k : string) :
  k ∉ AstParameter.name <$> List.filter AstParameter.supportedName params →
  js_get k (visitParams params parameters) = js_get k parameters.
Proof.
  revert parameters.
  induction params as [|param params IH]; intros parameters Hk; [done|].
  rewrite visitParams_cons. simpl in Hk.
  destruct (AstParameter.supportedName param) eqn:Hs.
  - rewrite fmap_cons in Hk. apply not_elem_of_cons in Hk as [Hne Hk].
    rewrite IH, visitParam_get by done.
    destruct (String.eqb (AstParameter.name param) k) eqn:E; [|done].
    apply String.eqb_eq in E. by subst.
  - rewrite IH, visitParam_get, Hs by done. by rewrite andb_false_r.
Qed.

Lemma visitParams_nil (params : list AstParameter.t) :
  visitParams params [] = [].
Proof.
  induction params as [|param params IH]; [done|].
  rewrite visitParams_cons. unfold visitParam, visitApiParam. simpl.
  by destruct (AstParameter.supportedName param).
Qed.

Lemma visitParams_app (before after : list AstParameter.t)
    (parameters : JsObj IApiParameter.t) :
  visitParams (before ++ after) parameters
  = visitParams after (visitParams before parameters).
Proof. apply foldl_app. Qed.

(** A declared parameter of a supported name that is documented has its
    entry carry the declaration's signature, when no parameter of a
    supported name that is declared after it has its name. *)
Lemma visitParams_signature (before after : list AstParameter.t)
    (parameters : JsObj IApiParameter.t) (param : AstParameter.t)
    (entry : IApiParameter.t) :
  AstParameter.supportedName param = true →
  AstParameter.name param
    ∉ AstParameter.name <$> List.filter AstParameter.supportedName after →
  js_get (AstParameter.name param) parameters = Some entry →
  js_get (AstParameter.name param)
         (visitParams (before ++ param :: after) parameters)
  = Some (withSignature param entry).
Proof.
  intros Hs Hlast Hget.
  rewrite visitParams_app, visitParams_cons, visitParams_unsupported by done.
  destruct (visitParams_documented before parameters _ entry Hget)
    as (entry' & Hget' & Herase).
  rewrite visitParam_get, String.eqb_refl, Hs, Hget'. simpl.
  by rewrite (withSignature_erase _ _ _ Herase).
Qed.

Lemma lastDeclared_snoc (k : string) (params : list AstParameter.t)
    (param : AstParameter.t) :
  lastDeclared k (params ++ [param])
  = if String.eqb k (AstParameter.name param)
       && AstParameter.supportedName param
    then Some param else lastDeclared k params.
Proof.
  unfold lastDeclared. rewrite List.filter_app. simpl.
  destruct (String.eqb k (AstParameter.name param)
            && AstParameter.supportedName param).
  - apply last_snoc.
  - by rewrite app_nil_r.
Qed.

(** What the loop makes of the entry under [k] is the entry with the
    signature of the last declared parameter named [k]. *)
Lemma stamp_assignedEntry (params : list AstParameter.t) (k : string)
    (entry : IApiParameter.t) :
  stamp params k entry = assignedEntry params k entry.
Proof.
  unfold assignedEntry.
  induction params as [|param params IH] using rev_ind; [done|].
  rewrite lastDeclared_snoc. unfold stamp in *. rewrite foldl_app. simpl.
  destruct (String.eqb k (AstParameter.name param)
            && AstParameter.supportedName param); [|done].
  apply withSignature_erase, stamp_keeps_erased.
Qed.

(** The entry under a name after the loop. *)
Lemma visitParams_get (params : list AstParameter.t)
    (parameters : JsObj IApiParameter.t) (k : string) :
  js_get k (visitParams params parameters)
  = assignedEntry params k <$> js_get k parameters.
Proof.
  transitivity (stamp params k <$> js_get k parameters).
  - revert parameters.
    induction params as [|param params IH]; intros parameters.
    + change (visitParams [] parameters) with parameters.
      by destruct (js_get k parameters).
    + rewrite visitParams_cons, IH, visitParam_get. unfold stamp. simpl.
      rewrite (String.eqb_sym k).
      destruct (String.eqb (AstParameter.name param) k
                && AstParameter.supportedName param);
        by destruct (js_get k parameters).
  - destruct (js_get k parameters); [|done]. simpl.
    by rewrite stamp_assignedEntry.
Qed.

(** The loop over the declared parameters leaves the map that
    [assignedParameters] describes. *)
Lemma visitParams_assigned (params : list AstParameter.t)
    (parameters : JsObj IApiParameter.t) :
  visitParams params parameters = assignedParameters params parameters.
Proof.
  revert params.
  induction parameters as [|[k entry] parameters IH]; intros params.
  - apply visitParams_nil.
  - by rewrite visitParams_cons_entry, stamp_assignedEntry, IH.
Qed.

(** The [parameters] field of the node of an emitted function or
    method is the item's documentation map after the loop. *)
Lemma emitted_parameters_field (astItem astItem' : AstItem)
    (refObject refObject' : JsObject) :
  emitted SetAccessor astItem = true →
  visit SetAccessor astItem refObject = Ok (astItem', refObject') →
  match astItem with
  | Function _ _ | Method _ _ =>
      nodeField (itemName astItem) "parameters" refObject'
      = Some (parametersNode
                (visitParams (declaredParams astItem)
                             (documentedParams astItem)))
  | _ => True
  end.
Proof.
  unfold emitted, itemSupportedName, itemName, documentedParams.
  rewrite visit_unfold.
  destruct (suppressed astItem); simpl; [done|].
  destruct astItem as [base fields members|base members|base|base fields
                      |base members|base members|base fields|base fields
                      |base fields|base]; simpl; try done.
  - unfold visitAstFunction.
    destruct (AstItemBase.supportedName base); simpl; [|done].
    intros _ Hv. ok_inv. by rewrite nodeField_set.
  - unfold visitAstMethod.
    destruct (AstItemBase.supportedName base); simpl; [|done].
    intros _ Hv. ok_inv.
    by destruct (String.eqb (AstItemBase.name base) "__constructor");
      rewrite nodeField_set.
Qed.

(** The entries of the map as it stands in the document. *)
Lemma parametersNode_get (k : string) (parameters : JsObj IApiParameter.t) :
  js_get k (map (λ entry, (fst entry, parameterNode (snd entry))) parameters)
  = parameterNode <$> js_get k parameters.
Proof.
  induction parameters as [|[k' entry] parameters IH]; simpl; [done|].
  by destruct (String.eqb k' k).
Qed.

Lemma parametersNode_keys (parameters : JsObj IApiParameter.t) :
  js_keys (map (λ entry, (fst entry, parameterNode (snd entry))) parameters)
  = js_keys parameters.
Proof.
  unfold js_keys. induction parameters as [|[k entry] parameters IH];
    simpl; [done|]. by rewrite IH.
Qed.

(** The map in the document after the loop over the declared parameters. *)
Lemma visitParams_node (params : list AstParameter.t)
    (documented : JsObj IApiParameter.t) :
  ∃ parameters : JsObject,
    parametersNode (visitParams params documented) = JObject parameters
    ∧ js_keys parameters = js_keys documented
    ∧ (∀ k entry,
         js_get k documented = Some entry →
         ∃ entry',
           js_get k parameters = Some (parameterNode entry')
           ∧ eraseEntry entry' = eraseEntry entry)
    ∧ (∀ param,
         param ∈ params →
         js_get (AstParameter.name param) documented = None →
         js_get (AstParameter.name param) parameters = None)
    ∧ (∀ before param after entry,
         params = before ++ param :: after →
         AstParameter.supportedName param = true →
         AstParameter.name param
           ∉ AstParameter.name
               <$> List.filter AstParameter.supportedName after →
         js_get (AstParameter.name param) documented = Some entry →
         js_get (AstParameter.name param) parameters
         = Some (parameterNode (withSignature param entry)))
    ∧ (∀ k entry,
         js_get k documented = Some entry →
         js_get k parameters
         = Some (parameterNode (assignedEntry params k entry))).
Proof.
  eexists. split; [reflexivity|].
  split; [by rewrite parametersNode_keys, visitParams_keys|].
  split.
  { intros k entry Hget.
    destruct (visitParams_documented params documented k entry Hget)
      as (entry' & Hget' & Herase).
    exists entry'. by rewrite parametersNode_get, Hget'. }
  split.
  { intros param _ Hget.
    by rewrite parametersNode_get, visitParams_undocumented. }
  split.
  { intros before param after entry -> Hs Hlast Hget.
    by rewrite parametersNode_get,
         (visitParams_signature _ _ _ param entry Hs Hlast Hget). }
  intros k entry Hget.
  by rewrite parametersNode_get, visitParams_get, Hget.
Qed.

(** C9.  The [parameters] field of the node of an emitted function or
    method is the item's documentation parameter map: its keys are the
    documented names; every documentation entry is in it with its name
    and description; a declared parameter without a documentation
    entry is not in it; a declared parameter of a supported name that
    is documented is in it with the optionality, spread flag and type of
    the declaration, when no parameter of a supported name declared
    after it has its name, as when it is declared once, whatever the
    other parameters are; and every entry holds the signature of the
    last declared parameter of a supported name that is named as the
    entry, or none of its own making when there is no such parameter. *)
Theorem emitted_parameters (astItem astItem' : AstItem)
    (refObject refObject' : JsObject) :
  emitted SetAccessor astItem = true →
  visit SetAccessor astItem refObject = Ok (astItem', refObject') →
  match astItem with
  | Function _ _ | Method _ _ =>
      ∃ parameters : JsObject,
        nodeField (itemName astItem) "parameters" refObject'
        = Some (JObject parameters)
        ∧ js_keys parameters = js_keys (documentedParams astItem)
        ∧ (∀ k entry,
             js_get k (documentedParams astItem) = Some entry →
             ∃ entry',
               js_get k parameters = Some (parameterNode entry')
               ∧ eraseEntry entry' = eraseEntry entry)
        ∧ (∀ param,
             param ∈ declaredParams astItem →
             js_get (AstParameter.name param) (documentedParams astItem)
             = None →
             js_get (AstParameter.name param) parameters = None)
        ∧ (∀ before param after entry,
             declaredParams astItem = before ++ param :: after →
             AstParameter.supportedName param = true →
             AstParameter.name param
               ∉ AstParameter.name
                   <$> List.filter AstParameter.supportedName after →
             js_get (AstParameter.name param) (documentedParams astItem)
             = Some entry →
             js_get (AstParameter.name param) parameters
             = Some (parameterNode (withSignature param entry)))
        ∧ (∀ k entry,
             js_get k (documentedParams astItem) = Some entry →
             js_get k parameters
             = Some (parameterNode
                       (assignedEntry (declaredParams astItem) k entry)))
  | _ => True
  end.
Proof.
  intros Hemitted Hv.
  pose proof (emitted_parameters_field _ _ _ _ Hemitted Hv) as Hfield.
  destruct astItem as [| | |base fields| | | | |base fields|]; try done.
  - destruct (visitParams_node (AstFunction.params fields)
                (documentedParams (Function base fields)))
      as (parameters & Hnode & Hrest).
    exists parameters. split; [|exact Hrest].
    rewrite Hfield. f_equal. exact Hnode.
  - destruct (visitParams_node (AstMethod.params fields)
                (documentedParams (Method base fields)))
      as (parameters & Hnode & Hrest).
    exists parameters. split; [|exact Hrest].
    rewrite Hfield. f_equal. exact Hnode.
Qed.

(** ** What the traversal changes in the item tree *)

Lemma visitApiParam_erase (astParam : AstParameter.t)
    (entry entry' : IApiParameter.t) :
  visitApiParam astParam (Some entry) = Some entry' →
  eraseEntry entry' = eraseEntry entry.
Proof.
  unfold visitApiParam.
  destruct (AstParameter.supportedName astParam); simpl; intros H;
    by ok_inv_some.
Qed.

Lemma eraseParameters_set (k : string) (entry entry' : IApiParameter.t)
    (parameters : JsObj IApiParameter.t) :
  js_get k parameters = Some entry →
  eraseEntry entry' = eraseEntry entry →
  eraseParameters (js_set k entry' parameters) = eraseParameters parameters.
Proof.
  intros Hget Herase.
  induction parameters as [|[k0 entry0] parameters IH]; simpl in *; [done|].
  destruct (String.eqb k0 k); simpl.
  - ok_inv_some. unfold eraseParameters. simpl. by rewrite Herase.
  - unfold eraseParameters in *. simpl. by rewrite IH.
Qed.

Lemma visitParams_erase (params : list AstParameter.t)
    (parameters : JsObj IApiParameter.t) :
  eraseParameters (visitParams params parameters) = eraseParameters parameters.
Proof.
  unfold visitParams. revert parameters.
  induction params as [|param params IH]; intros parameters; simpl; [done|].
  rewrite IH. unfold visitParam.
  destruct (js_get (AstParameter.name param) parameters) as [entry|] eqn:Hget.
  - destruct (visitApiParam param (Some entry)) as [entry'|] eqn:Hvisit;
      [|done].
    apply eraseParameters_set with entry; [done|].
    by apply visitApiParam_erase with param.
  - unfold visitApiParam. by destruct (AstParameter.supportedName param).
Qed.

Lemma eraseBase_visitParams (base : AstItemBase.t) (params : list AstParameter.t) :
  eraseBase
    (AstItemBase.withParameters base
       (visitParams params
          (ApiDocumentation.parameters (AstItemBase.documentation base))))
  = eraseBase base.
Proof.
  unfold eraseBase, AstItemBase.withParameters, ApiDocumentation.withParameters.
  simpl. by rewrite visitParams_erase.
Qed.

Lemma visitEach_erase (members members' : list AstItem)
    (refObject refObject' : JsObject) :
  Forall (λ astItem, ∀ astItem' refObject refObject',
            visit SetAccessor astItem refObject = Ok (astItem', refObject') →
            eraseSignatures astItem' = eraseSignatures astItem) members →
  visitEach (visit SetAccessor) members refObject = Ok (members', refObject') →
  map eraseSignatures members' = map eraseSignatures members.
Proof.
  intros Hall. revert members' refObject.
  induction Hall as [|astItem members Hitem Hall IH];
    intros members' refObject Hv; simpl in *; ok_inv; [done|].
  simpl. f_equal; eauto.
Qed.

(** The tree after a visit and the tree before it are the same once the
    signature fields ([isOptional], [isSpread], [type]) of the parameter
    documentation entries are left out. *)
Lemma visit_erase (astItem astItem' : AstItem)
    (refObject refObject' : JsObject) :
  visit SetAccessor astItem refObject = Ok (astItem', refObject') →
  eraseSignatures astItem' = eraseSignatures astItem.
Proof.
  revert astItem' refObject refObject'.
  induction astItem as [base fields members IH|base members IH|base
                       |base fields|base members IH|base members IH
                       |base fields|base fields|base fields|base]
    using AstItem_ind;
    intros astItem' refObject refObject'; rewrite visit_unfold;
    (destruct (suppressed _); [intros; by ok_inv|]); simpl.
  - unfold visitAstStructuredType.
    destruct (AstItemBase.supportedName base); simpl; [|intros; by ok_inv].
    destruct members as [|member members]; intros Hv; ok_inv; [done|].
    simpl. f_equal. eapply (visitEach_erase (member :: members)); eauto.
  - unfold visitAstEnum.
    destruct (AstItemBase.supportedName base); simpl; [|intros; by ok_inv].
    intros Hv; ok_inv. simpl. f_equal. eapply visitEach_erase; eauto.
  - intros; by ok_inv.
  - unfold visitAstFunction.
    destruct (AstItemBase.supportedName base); simpl; intros; ok_inv;
      [|done].
    simpl. by rewrite eraseBase_visitParams.
  - unfold visitAstPackage. intros Hv; ok_inv.
    simpl. f_equal. eapply visitEach_erase; eauto.
  - unfold visitAstNamespace.
    destruct (AstItemBase.supportedName base); simpl; [|intros; by ok_inv].
    intros Hv; ok_inv. simpl. f_equal. eapply visitEach_erase; eauto.
  - intros; by ok_inv.
  - intros; by ok_inv.
  - unfold visitAstMethod.
    destruct (AstItemBase.supportedName base); simpl; intros; ok_inv;
      [|done].
    simpl. by rewrite eraseBase_visitParams.
  - intros; by ok_inv.
Qed.

Lemma assignedBase_visitParams (base : AstItemBase.t)
    (params : list AstParameter.t) :
  AstItemBase.withParameters base
    (visitParams params
       (ApiDocumentation.parameters (AstItemBase.documentation base)))
  = assignedBase params base.
Proof. unfold assignedBase. by rewrite visitParams_assigned. Qed.

Lemma visitEach_afterTraversal (members members' : list AstItem)
    (refObject refObject' : JsObject) :
  Forall (λ astItem, ∀ astItem' refObject refObject',
            visit SetAccessor astItem refObject = Ok (astItem', refObject') →
            astItem' = afterTraversal astItem) members →
  visitEach (visit SetAccessor) members refObject = Ok (members', refObject') →
  members' = map afterTraversal members.
Proof.
  intros Hall. revert members' refObject.
  induction Hall as [|astItem members Hitem Hall IH];
    intros members' refObject Hv; simpl in *; ok_inv; [done|].
  f_equal; eauto.
Qed.

Lemma visit_afterTraversal (astItem astItem' : AstItem)
    (refObject refObject' : JsObject) :
  visit SetAccessor astItem refObject = Ok (astItem', refObject') →
  astItem' = afterTraversal astItem.
Proof.
  revert astItem' refObject refObject'.
  induction astItem as [base fields members IH|base members IH|base
                       |base fields|base members IH|base members IH
                       |base fields|base fields|base fields|base]
    using AstItem_ind;
    intros astItem' refObject refObject'; rewrite visit_unfold;
    cbn [afterTraversal];
    (destruct (suppressed _); [intros; by ok_inv|]); simpl.
  - unfold visitAstStructuredType.
    destruct (AstItemBase.supportedName base); simpl; [|intros; by ok_inv].
    destruct members as [|member members]; intros Hv; ok_inv; [done|].
    f_equal. eapply (visitEach_afterTraversal (member :: members)); eauto.
  - unfold visitAstEnum.
    destruct (AstItemBase.supportedName base); simpl; [|intros; by ok_inv].
    intros Hv; ok_inv. f_equal. eapply visitEach_afterTraversal; eauto.
  - intros; by ok_inv.
  - unfold visitAstFunction.
    destruct (AstItemBase.supportedName base); simpl; intros; ok_inv;
      [|done].
    by rewrite assignedBase_visitParams.
  - unfold visitAstPackage. intros Hv; ok_inv.
    f_equal. eapply visitEach_afterTraversal; eauto.
  - unfold visitAstNamespace.
    destruct (AstItemBase.supportedName base); simpl; [|intros; by ok_inv].
    intros Hv; ok_inv. f_equal. eapply visitEach_afterTraversal; eauto.
  - intros; by ok_inv.
  - intros; by ok_inv.
  - unfold visitAstMethod.
    destruct (AstItemBase.supportedName base); simpl; intros; ok_inv;
      [|done].
    by rewrite assignedBase_visitParams.
  - intros; by ok_inv.
Qed.

(** C6.  The traversal changes nothing in the item tree but the
    parameter documentation of the functions and methods it emits.  The
    tree after a visit is the tree before it in which, for every
    function and method that the traversal reaches and that has a
    supported name, each documentation entry named as a declared
    parameter of a supported name holds the optionality, spread flag and
    type of the last such parameter; every other item, everything below
    a suppressed or unsupported item, and the name and description of
    every entry are as they were.  So the two trees are the same once
    the three signature fields are left out. *)
Theorem traversal_changes_only_signatures (astItem astItem' : AstItem)
    (refObject refObject' : JsObject) :
  visit SetAccessor astItem refObject = Ok (astItem', refObject') →
  astItem' = afterTraversal astItem
  ∧ eraseSignatures astItem' = eraseSignatures astItem.
Proof.
  intros Hv. split.
  - by apply visit_afterTraversal in Hv.
  - by apply visit_erase in Hv.
Qed.

End Properties.

(** ** The laws at particular item trees *)

(** C2.  The module variable ["$scope"], whose [supportedName] is false,
    is visited into an empty container: the container then holds a node
    under ["$scope"], where the spec has it hold nothing. *)
Theorem unsupported_module_variable_emitted :
  itemSupportedName unsupportedVariable = false
  ∧ visit 154 unsupportedVariable []
    = Ok (unsupportedVariable,
          [("$scope",
            JObject
              [("kind", JString "module variable");
               ("type", JString "string");
               ("value", JString "'x'");
               ("deprecatedMessage", JArray []);
               ("summary", JArray []);
               ("remarks", JArray []);
               ("isBeta", JBool false)])]).
Proof. split; reflexivity. Qed.

(** C3, as the spec words it, fails on a class with two methods of one
    name: the second assignment to [members["bar"]] replaces the first,
    so the container has one key for two emitted members. *)
Lemma key_order_overloads_counterexample : ¬ keyOrderLaw 154 overloadedClass.
Proof.
  intros Hlaw.
  specialize (Hlaw [] _ _ _ eq_refl eq_refl eq_refl).
  discriminate Hlaw.
Qed.

(** C6, as the spec words it, fails on a package with a documented
    function parameter: after the traversal the documentation entry of
    [x] holds the optionality, spread flag and type of the declaration. *)
Lemma traversal_mutates_counterexample : ¬ treeUntouched 154 documentedPackage.
Proof.
  intros Hlaw. specialize (Hlaw [] _ _ eq_refl). discriminate Hlaw.
Qed.


(** The placeholder handler stores a string, which is no object. *)
Lemma placeholder_node_is_a_string :
  visit 154 plainMember []
  = Ok (plainMember, [("index", JString "astMember-157")]).
Proof. reflexivity. Qed.

(** C8, as the spec words it, fails on a class without members: its node
    has no [members] field. *)
Lemma empty_class_counterexample : ¬ subContainerLaw 154 emptyClass.
Proof.
  intros Hlaw.
  destruct (Hlaw [] _ _ eq_refl eq_refl eq_refl) as [container Hc].
  discriminate Hc.
Qed.

(** C9, as the spec words it, fails on a function that declares [x] and
    documents nothing: the emitted [parameters] map is empty. *)
Lemma undocumented_parameter_counterexample :
  ¬ parameterLaw 154 undocumentedFunction.
Proof.
  intros Hlaw.
  destruct (Hlaw [] _ _ (AstParameter.mk "x" true false false "string")
              eq_refl eq_refl)
    as (parameters & entry & Hfield & Hget).
  { simpl. left. }
  vm_compute in Hfield. ok_inv_some. discriminate Hget.
Qed.

(** ** The theorems at particular item trees *)

(** The scenario of section 8: the Beta class [Foo] with the Public
    method [bar]. *)
Lemma example_package_document :
  containerOf (visit 154 examplePackage [])
  = Ok [("kind", JString "package");
        ("summary", JArray []);
        ("remarks", JArray []);
        ("exports",
         JObject
           [("Foo",
             JObject
               [("kind", JString "class");
                ("extends", JString "");
                ("implements", JString "");
                ("typeParameters", JArray []);
                ("deprecatedMessage", JArray []);
                ("summary", JArray []);
                ("remarks", JArray []);
                ("isBeta", JBool true);
                ("members",
                 JObject
                   [("bar",
                     JObject
                       [("kind", JString "method");
                        ("signature", JString "bar(x: number): string;");
                        ("accessModifier", JString "");
                        ("isOptional", JBool false);
                        ("isStatic", JBool false);
                        ("returnValue",
                         JObject [("type", JString "string");
                                  ("description", JArray [])]);
                        ("parameters",
                         JObject
                           [("x",
                             JObject [("name", JString "x");
                                      ("description", JArray []);
                                      ("isOptional", JBool false);
                                      ("isSpread", JBool false);
                                      ("type", JString "number")])]);
                        ("deprecatedMessage", JArray []);
                        ("summary", JArray []);
                        ("remarks", JArray []);
                        ("isBeta", JBool false)])])])])].
Proof. reflexivity. Qed.

(** The scenario of section 8: an Alpha class with a Public method leaves
    no entry in [exports]. *)
Lemma alpha_class_document :
  containerOf (visit 154 alphaClassPackage [])
  = Ok [("kind", JString "package");
        ("summary", JArray []);
        ("remarks", JArray []);
        ("exports", JObject [])].
Proof. reflexivity. Qed.

Lemma member_key_order_witness :
  ∃ astItem' refObject' container,
    visit 154 sampleClass [] = Ok (astItem', refObject')
    ∧ memberContainer sampleClass refObject' = Some container
    ∧ js_keys container = ["zeta"; "beta"].
Proof.
  do 3 eexists. split; [reflexivity|]. split; [reflexivity|].
  refine (proj2 (member_key_order 154 sampleClass _ [] _ _
                   eq_refl _ _ eq_refl eq_refl) _).
  - repeat constructor.
  - repeat constructor.
  - by apply (bool_decide_unpack _).
Defined.

Lemma constructor_node_witness :
  ∃ astItem' refObject' node,
    visit 154 betaConstructor [] = Ok (astItem', refObject')
    ∧ js_get "__constructor" refObject' = Some (JObject node)
    ∧ js_get "kind" node = Some (JString "constructor")
    ∧ js_keys node = constructorFields
    ∧ Forall (λ k, js_get k node = None)
        ["accessModifier"; "isOptional"; "isStatic"; "returnValue"].
Proof.
  unfold betaConstructor. apply constructor_node; reflexivity.
Defined.

Lemma enum_value_literal_witness :
  ∃ refObject' node,
    visit 154 redValue [] = Ok (redValue, refObject')
    ∧ js_get "Red" refObject' = Some (JObject node)
    ∧ js_get "value" node = Some (JString "1").
Proof.
  unfold redValue. apply enum_value_literal; reflexivity.
Defined.

Lemma writeJsonFile_saves_then_validates_witness :
  let document :=
    JObject [("kind", JString "package"); ("summary", JUndefined);
             ("remarks", JUndefined); ("exports", JObject [])] in
  let errorMessage :=
    "bare.api.json does not conform to the expected schema -- please report this API Extractor bug:"
    +:+ LF +:+ "#/summary: Expected type array" in
  let (world', result) :=
    writeJsonFile 154 posixBasename LF summarySchema
      "dist/bare.api.json" (mkExtractor barePackage) [] emptyWorld in
  files world' !! "dist/bare.api.json" = Some document
  ∧ result = Throw (Error errorMessage)
  ∧ events world'
    = [Saved "dist/bare.api.json" document;
       Validated document;
       Logged (LF +:+ "ERROR: " +:+ errorMessage +:+ LF +:+ LF)].
Proof.
  exact (writeJsonFile_saves_then_validates 154 posixBasename LF summarySchema
           "dist/bare.api.json" (mkExtractor barePackage) [] emptyWorld
           barePackage _ eq_refl).
Defined.

Lemma traversal_changes_only_signatures_witness :
  ∃ package' document,
    visit 154 repeatedParameterPackage [] = Ok (package', document)
    ∧ (package' = afterTraversal repeatedParameterPackage
       ∧ eraseSignatures package' = eraseSignatures repeatedParameterPackage)
    ∧ documentedParams <$> membersOf (afterTraversal repeatedParameterPackage)
      = [[("a", IApiParameter.mk "a" [JString "the first"]
                  (Some false) (Some false) (Some "string"));
          ("b", IApiParameter.mk "b" [JString "the second"]
                  (Some false) (Some true) (Some "string[]"))];
         [("a", IApiParameter.mk "a" [JString "the first"] None None None)];
         [("a", IApiParameter.mk "a" [] None None None)]].
Proof.
  do 2 eexists. split; [reflexivity|].
  split; [|reflexivity].
  exact (traversal_changes_only_signatures 154 repeatedParameterPackage
           _ [] _ eq_refl).
Defined.


Lemma sub_container_presence_witness :
  ∃ astItem' refObject',
    visit 154 emptyClass [] = Ok (astItem', refObject')
    ∧ nodeField "Marker" "members" refObject' = None.
Proof.
  do 2 eexists. split; [reflexivity|].
  exact (sub_container_presence 154 emptyClass _ [] _ eq_refl eq_refl).
Defined.

Lemma emitted_parameters_witness :
  ∃ astItem' refObject' parameters,
    visit 154 repeatedParameterFunction [] = Ok (astItem', refObject')
    ∧ nodeField "merge" "parameters" refObject' = Some (JObject parameters)
    ∧ js_keys parameters = ["a"; "b"]
    ∧ js_get "c" parameters = None
    ∧ js_get "a" parameters
      = Some (JObject [("name", JString "a");
                       ("description", JArray [JString "the first"]);
                       ("isOptional", JBool false);
                       ("isSpread", JBool false);
                       ("type", JString "string")])
    ∧ js_get "b" parameters
      = Some (JObject [("name", JString "b");
                       ("description", JArray [JString "the second"]);
                       ("isOptional", JBool false);
                       ("isSpread", JBool true);
                       ("type", JString "string[]")]).
Proof.
  do 2 eexists.
  destruct (emitted_parameters 154 repeatedParameterFunction _ [] _
              eq_refl eq_refl)
    as (parameters & Hfield & Hkeys & _ & Hundocumented & Hsignature & Hlast).
  exists parameters. split; [reflexivity|].
  split; [exact Hfield|]. split; [exact Hkeys|].
  split; [|split].
  - apply (Hundocumented (AstParameter.mk "c" true false false "boolean"));
      [do 3 right; left|reflexivity].
  - refine (Hsignature [] (AstParameter.mk "a" true false false "string")
              _ _ eq_refl eq_refl _ eq_refl).
    by apply (bool_decide_unpack _).
  - exact (Hlast "b" _ eq_refl).
Defined.

(** ** Assigning into any target *)

Lemma js_set_fresh {A} (k : string) (v : A) (o : JsObj A) :
  k ∉ js_keys o → js_set k v o = o ++ [(k, v)].
Proof.
  unfold js_keys. induction o as [|[k' v'] o IH]; simpl; intros Hfresh;
    [done|].
  apply not_elem_of_cons in Hfresh as [Hne Hfresh].
  destruct (String.eqb k' k) eqn:E.
  - apply String.eqb_eq in E. by subst.
  - by rewrite IH.
Qed.

Lemma js_set_same {A} (k : string) (v : A) (o : JsObj A) :
  js_get k o = Some v → js_set k v o = o.
Proof.
  induction o as [|[k' v'] o IH]; simpl; [done|].
  destruct (String.eqb k' k); intros Hget.
  - by ok_inv_some.
  - by rewrite IH.
Qed.

Lemma js_get_None_keys {A} (k : string) (o : JsObj A) :
  js_get k o = None ↔ k ∉ js_keys o.
Proof.
  unfold js_keys. induction o as [|[k' v'] o IH]; simpl.
  - split; [intros _; apply not_elem_of_nil|done].
  - rewrite not_elem_of_cons.
    destruct (String.eqb k' k) eqn:E.
    + apply String.eqb_eq in E. subst. split; [done|]. by intros [? _].
    + apply String.eqb_neq in E. rewrite IH. split; [|by intros [_ ?]].
      intros H. split; [congruence|done].
Qed.

Lemma addKey_prefix (keys : list string) (k : string) :
  keys `prefix_of` addKey keys k.
Proof.
  unfold addKey. destruct (existsb _ keys); [done|]. by apply prefix_app_r.
Qed.

Section Targets.

Variable SetAccessor : SyntaxKind.

(** A visit into any target is the visit into the empty object, with the
    entries that one wrote assigned into the target. *)
Lemma visit_via_empty (astItem : AstItem) (refObject : JsObject) :
  visit SetAccessor astItem refObject =
    match visit SetAccessor astItem [] with
    | Ok (astItem', own) => Ok (astItem', assignAll own refObject)
    | Throw e => Throw e
    end.
Proof.
  rewrite !visit_unfold. destruct (suppressed astItem); [done|].
  destruct astItem as [base fields members|base members|base|base fields
                      |base members|base members|base fields|base fields
                      |base fields|base]; simpl.
  - unfold visitAstStructuredType.
    destruct (AstItemBase.supportedName base); simpl; [|done].
    destruct members as [|member members]; simpl;
      rewrite ?String.eqb_refl; [done|].
    destruct (visit SetAccessor member []) as [[? ?]|]; simpl; [|done].
    destruct (visitEach _ members _) as [[? ?]|]; simpl; [|done].
    rewrite ?String.eqb_refl. simpl. by rewrite js_set_set.
  - unfold visitAstEnum.
    destruct (AstItemBase.supportedName base); simpl; [|done].
    by destruct (visitEach _ members []) as [[? ?]|].
  - unfold visitAstEnumValue.
    by destruct (AstItemBase.supportedName base).
  - unfold visitAstFunction.
    by destruct (AstItemBase.supportedName base).
  - unfold visitAstPackage.
    by destruct (visitEach _ members []) as [[? ?]|].
  - unfold visitAstNamespace.
    destruct (AstItemBase.supportedName base); simpl; [|done].
    by destruct (visitEach _ members []) as [[? ?]|].
  - unfold visitAstProperty.
    destruct (AstItemBase.supportedName base); simpl; [|done].
    destruct (AstItemBase.declaration base) as [declaration|]; simpl; [|done].
    by destruct (N.eqb _ SetAccessor).
  - done.
  - unfold visitAstMethod.
    by destruct (AstItemBase.supportedName base).
  - unfold visitAstMember.
    destruct (AstItemBase.supportedName base); simpl; [|done].
    by destruct (AstItemBase.declaration base).
Qed.

(** What a member writes into the empty object: nothing, or one entry
    under its name. *)
Lemma visit_own_shape (astItem astItem' : AstItem) (own : JsObject) :
  ordinaryMember astItem →
  visit SetAccessor astItem [] = Ok (astItem', own) →
  if emitted SetAccessor astItem
  then ∃ node, own = [(itemName astItem, node)]
  else own = [].
Proof.
  intros Hord Hv. apply visit_keys in Hv; [|done].
  destruct (emitted SetAccessor astItem).
  - destruct own as [|[k node] [|? ?]]; try done.
    simpl in Hv. ok_inv. inversion Hv. by eexists.
  - by destruct own.
Qed.

(** One round of the loop over a member list. *)
Lemma visit_member_step (astItem astItem' : AstItem)
    (refObject refObject' : JsObject) :
  ordinaryMember astItem →
  visit SetAccessor astItem refObject = Ok (astItem', refObject') →
  ∃ own,
    visit SetAccessor astItem [] = Ok (astItem', own)
    ∧ refObject' = assignAll own refObject
    ∧ if emitted SetAccessor astItem
      then ∃ node, own = [(itemName astItem, node)]
      else own = [].
Proof.
  intros Hord. rewrite visit_via_empty.
  destruct (visit SetAccessor astItem []) as [[item own]|] eqn:Hown;
    intros Hv; ok_inv.
  exists own. split; [done|]. split; [done|].
  by eapply visit_own_shape.
Qed.

Lemma emittedNames_cons (astItem : AstItem) (members : list AstItem) :
  emittedNames SetAccessor (astItem :: members)
  = (if emitted SetAccessor astItem then [itemName astItem] else [])
    ++ emittedNames SetAccessor members.
Proof.
  unfold emittedNames. simpl. by destruct (emitted SetAccessor astItem).
Qed.


(** The loop appends the members' own entries when their names are new. *)
Lemma visitEach_appends (members members' : list AstItem)
    (refObject refObject' : JsObject) :
  Forall ordinaryMember members →
  NoDup (js_keys refObject ++ emittedNames SetAccessor members) →
  visitEach (visit SetAccessor) members refObject = Ok (members', refObject') →
  ∃ owns,
    Forall2 (λ astItem own,
               containerOf (visit SetAccessor astItem []) = Ok own)
            members owns
    ∧ refObject' = refObject ++ concat owns.
Proof.
  intros Hord. revert members' refObject.
  induction Hord as [|astItem members Hitem Hord IH];
    intros members' refObject Hnd Hv; simpl in Hv; ok_inv.
  { exists []. split; [constructor|]. by rewrite app_nil_r. }
  rewrite emittedNames_cons in Hnd.
  match goal with H : visit _ _ _ = Ok _ |- _ =>
    apply visit_member_step in H as (own & Hown & -> & Hshape); [|done] end.
  destruct (emitted SetAccessor astItem).
  - destruct Hshape as [node ->]. simpl in *.
    assert (Hfresh : itemName astItem ∉ js_keys refObject).
    { apply NoDup_app in Hnd as (_ & Hdisjoint & _).
      intros Hin. apply (Hdisjoint _ Hin). left. }
    rewrite (js_set_fresh _ _ _ Hfresh) in *.
    match goal with H : visitEach _ _ _ = Ok _ |- _ =>
      apply IH in H as (owns & Hall & ->) end.
    + exists ([(itemName astItem, node)] :: owns). split.
      * constructor; [by rewrite Hown|done].
      * simpl. by rewrite <- app_assoc.
    + unfold js_keys in *. rewrite map_app. simpl.
      by rewrite <- app_assoc.
  - subst own. simpl in *.
    match goal with H : visitEach _ _ _ = Ok _ |- _ =>
      apply IH in H as (owns & Hall & ->); [|done] end.
    exists ([] :: owns). split; [|done].
    constructor; [by rewrite Hown|done].
Qed.

(** X1.  What a visit writes does not depend on what its target holds:
    the visit of an item into any target returns the item that the visit
    into the empty object returns, with the entries written there
    assigned, in their order, into the target; and it throws when the
    visit into the empty object throws. *)
Theorem visit_target_independence (astItem : AstItem) :
  match visit SetAccessor astItem [] with
  | Ok (astItem', own) =>
      ∀ refObject,
        visit SetAccessor astItem refObject
        = Ok (astItem', assignAll own refObject)
  | Throw e =>
      ∀ refObject, visit SetAccessor astItem refObject = Throw e
  end.
Proof.
  pose proof (visit_via_empty astItem) as Hvia.
  destruct (visit SetAccessor astItem []) as [[astItem' own]|e];
    intros refObject; by rewrite Hvia.
Qed.

(** X2.  The visit of a member whose name an assignment adds as the last
    key (no array index, not [__proto__]) touches only the entry under
    the member's own name: what the target holds under any other name is
    as before, and the keys that the target had keep their places. *)
Theorem visit_leaves_other_names (astItem astItem' : AstItem)
    (refObject refObject' : JsObject) :
  ordinaryMember astItem →
  ordinaryName (itemName astItem) = true →
  visit SetAccessor astItem refObject = Ok (astItem', refObject') →
  (∀ k, k ≠ itemName astItem → js_get k refObject' = js_get k refObject)
  ∧ js_keys refObject `prefix_of` js_keys refObject'.
Proof.
  intros Hord _ Hv. split.
  - intros k Hk.
    apply visit_member_step in Hv as (own & _ & -> & Hshape); [|done].
    destruct (emitted SetAccessor astItem).
    + destruct Hshape as [node ->]. simpl. by apply js_get_set_ne.
    + by subst.
  - apply visit_keys in Hv; [|done]. rewrite Hv.
    destruct (emitted SetAccessor astItem); [apply addKey_prefix|done].
Qed.

Lemma ownEntries_all (members : list AstItem) (owns : list JsObject) :
  Forall2 (λ astItem own,
             containerOf (visit SetAccessor astItem []) = Ok own)
          members owns →
  owns = ownEntries SetAccessor <$> members.
Proof.
  induction 1 as [|astItem own members owns Hown _ IH]; [done|].
  rewrite fmap_cons, <- IH. f_equal. unfold ownEntries.
  destruct (visit SetAccessor astItem []) as [[? ?]|]; simpl in Hown;
    by inversion Hown.
Qed.

(** X3.  The container that the loop over a member list fills, started
    empty, is the members' own entries one after the other, in the order
    of the list, when the emitted names are distinct and every name in
    the members' trees is one that an assignment adds as the last key
    (no array index, not [__proto__]): each member contributes what its
    visit alone writes into an empty object. *)
Theorem member_container_concatenates (members members' : list AstItem)
    (container : JsObject) :
  Forall ordinaryMember members →
  Forall (λ astItem, ordinaryNames astItem = true) members →
  NoDup (emittedNames SetAccessor members) →
  visitEach (visit SetAccessor) members [] = Ok (members', container) →
  container = concat (ownEntries SetAccessor <$> members).
Proof.
  intros Hord _ Hnd Hv.
  apply visitEach_appends in Hv as (owns & Hall & ->); [|done|done].
  by rewrite (ownEntries_all _ _ Hall).
Qed.


End Targets.

(** ** Exceptions of the traversal *)

Section Exceptions.

Variable SetAccessor : SyntaxKind.

Lemma visitEach_throw_inv (visit' : AstItem → JsObject → Result (AstItem * JsObject))
    (members : list AstItem) (refObject : JsObject) (e : JsError) :
  visitEach visit' members refObject = Throw e →
  ∃ member target, member ∈ members ∧ visit' member target = Throw e.
Proof.
  revert refObject.
  induction members as [|astItem members IH]; intros refObject; simpl;
    [done|].
  destruct (visit' astItem refObject) as [[astItem' refObject']|e'] eqn:Hv;
    simpl.
  - destruct (visitEach visit' members refObject') as [[? ?]|e'] eqn:Hrest;
      simpl; [done|].
    intros He. inversion He. subst e'.
    destruct (IH _ Hrest) as (member & target & Hin & Hthrow).
    exists member, target. split; [by right|done].
  - intros He. inversion He. subst e'.
    exists astItem, refObject. split; [left|done].
Qed.

(** What the traversal throws is the error for a missing declaration, and
    an item that it visits is a property or placeholder member without
    one. *)
Lemma visit_throw_inv (astItem : AstItem) (refObject : JsObject) (e : JsError) :
  visit SetAccessor astItem refObject = Throw e →
  e = noDeclaration
  ∧ ∃ culprit, Visits astItem culprit ∧ undeclared culprit = true.
Proof.
  revert refObject.
  induction astItem as [base fields members IH|base members IH|base
                       |base fields|base members IH|base members IH
                       |base fields|base fields|base fields|base]
    using AstItem_ind;
    intros refObject; rewrite visit_unfold;
    destruct (suppressed _) eqn:Hgate; try done; simpl.
  - unfold visitAstStructuredType.
    destruct (AstItemBase.supportedName base) eqn:Hname; simpl; [|done].
    destruct members as [|member members]; [done|].
    destruct (visitEach _ (member :: members) []) as [[? ?]|e'] eqn:Hloop;
      simpl; [done|].
    intros He. inversion He. subst e'.
    destruct (visitEach_throw_inv _ _ _ _ Hloop) as (m & target & Hin & Hm).
    rewrite Forall_forall in IH.
    destruct (IH m Hin target Hm) as (-> & culprit & Hvisits & Hculprit).
    split; [done|]. exists culprit. split; [|done].
    apply Visits_member with m; [|done|done].
    unfold entersMembers, itemSupportedName. simpl. by rewrite Hgate, Hname.
  - unfold visitAstEnum.
    destruct (AstItemBase.supportedName base) eqn:Hname; simpl; [|done].
    destruct (visitEach _ members []) as [[? ?]|e'] eqn:Hloop; simpl; [done|].
    intros He. inversion He. subst e'.
    destruct (visitEach_throw_inv _ _ _ _ Hloop) as (m & target & Hin & Hm).
    rewrite Forall_forall in IH.
    destruct (IH m Hin target Hm) as (-> & culprit & Hvisits & Hculprit).
    split; [done|]. exists culprit. split; [|done].
    apply Visits_member with m; [|done|done].
    unfold entersMembers, itemSupportedName. simpl. by rewrite Hgate, Hname.
  - unfold visitAstFunction.
    by destruct (AstItemBase.supportedName base).
  - unfold visitAstPackage.
    destruct (visitEach _ members []) as [[? ?]|e'] eqn:Hloop; simpl; [done|].
    intros He. inversion He. subst e'.
    destruct (visitEach_throw_inv _ _ _ _ Hloop) as (m & target & Hin & Hm).
    rewrite Forall_forall in IH.
    destruct (IH m Hin target Hm) as (-> & culprit & Hvisits & Hculprit).
    split; [done|]. exists culprit. split; [|done].
    apply Visits_member with m; [|done|done].
    unfold entersMembers. simpl. by rewrite Hgate.
  - unfold visitAstNamespace.
    destruct (AstItemBase.supportedName base) eqn:Hname; simpl; [|done].
    destruct (visitEach _ members []) as [[? ?]|e'] eqn:Hloop; simpl; [done|].
    intros He. inversion He. subst e'.
    destruct (visitEach_throw_inv _ _ _ _ Hloop) as (m & target & Hin & Hm).
    rewrite Forall_forall in IH.
    destruct (IH m Hin target Hm) as (-> & culprit & Hvisits & Hculprit).
    split; [done|]. exists culprit. split; [|done].
    apply Visits_member with m; [|done|done].
    unfold entersMembers, itemSupportedName. simpl. by rewrite Hgate, Hname.
  - unfold visitAstProperty.
    destruct (AstItemBase.supportedName base) eqn:Hname; simpl; [|done].
    destruct (AstItemBase.declaration base) as [declaration|] eqn:Hdecl;
      simpl; [by destruct (N.eqb _ SetAccessor)|].
    intros He. inversion He. split; [done|].
    exists (Property base fields). split; [constructor|].
    unfold undeclared. by rewrite Hgate, Hname, Hdecl.
  - unfold visitAstMethod.
    by destruct (AstItemBase.supportedName base).
  - unfold visitAstMember.
    destruct (AstItemBase.supportedName base) eqn:Hname; simpl; [|done].
    destruct (AstItemBase.declaration base) as [declaration|] eqn:Hdecl;
      simpl; [done|].
    intros He. inversion He. split; [done|].
    exists (Member base). split; [constructor|].
    unfold undeclared. by rewrite Hgate, Hname, Hdecl.
Qed.

(** A loop over a list that holds a member whose visit throws, throws. *)
Lemma visitEach_throws (members : list AstItem) (member : AstItem)
    (refObject : JsObject) :
  member ∈ members →
  (∀ target, visit SetAccessor member target = Throw noDeclaration) →
  visitEach (visit SetAccessor) members refObject = Throw noDeclaration.
Proof.
  intros Hin Hthrow. revert refObject.
  induction members as [|astItem members IH]; intros refObject;
    [by apply elem_of_nil in Hin|].
  simpl.
  destruct (visit SetAccessor astItem refObject)
    as [[astItem' refObject']|e] eqn:Hv; simpl.
  - apply elem_of_cons in Hin as [->|Hin]; [by rewrite Hthrow in Hv|].
    by rewrite IH.
  - by apply visit_throw_inv in Hv as [-> _].
Qed.

Lemma visit_undeclared (astItem : AstItem) (refObject : JsObject) :
  undeclared astItem = true →
  visit SetAccessor astItem refObject = Throw noDeclaration.
Proof.
  rewrite visit_unfold. unfold undeclared.
  destruct astItem as [| | | | | |base fields| | |base]; try done;
    destruct (suppressed _); try done; simpl;
    unfold visitAstProperty, visitAstMember;
    destruct (AstItemBase.supportedName base); try done; simpl;
    by destruct (AstItemBase.declaration base).
Qed.

Lemma visit_throws (root culprit : AstItem) :
  Visits root culprit →
  undeclared culprit = true →
  ∀ refObject, visit SetAccessor root refObject = Throw noDeclaration.
Proof.
  intros Hvisits Hculprit.
  induction Hvisits as [astItem|container member astItem Henters Hin _ IH];
    intros refObject; [by apply visit_undeclared|].
  specialize (IH Hculprit).
  pose proof (λ target, visitEach_throws _ _ target Hin IH) as Hloop.
  rewrite visit_unfold. unfold entersMembers, itemSupportedName in Henters.
  destruct (suppressed container); [done|]. simpl in Henters.
  destruct container as [base fields members|base members| | |base members
                        |base members| | | |]; simpl in *;
    try by apply elem_of_nil in Hin.
  - unfold visitAstStructuredType. rewrite Henters. simpl.
    destruct members as [|m members]; [by apply elem_of_nil in Hin|].
    by rewrite Hloop.
  - unfold visitAstEnum. rewrite Henters. simpl. by rewrite Hloop.
  - unfold visitAstPackage. by rewrite Hloop.
  - unfold visitAstNamespace. rewrite Henters. simpl. by rewrite Hloop.
Qed.

(** X5.  The traversal throws exactly when it comes to a property or a
    placeholder member that passes the visibility gate and the name check
    and has no declaration, whatever the target holds; and it throws
    nothing but the TypeError of reading [kind] of undefined. *)
Theorem visit_throws_iff_undeclared (astItem : AstItem) (refObject : JsObject) :
  ((∃ culprit, Visits astItem culprit ∧ undeclared culprit = true)
   ↔ visit SetAccessor astItem refObject = Throw noDeclaration)
  ∧ ∀ e, visit SetAccessor astItem refObject = Throw e → e = noDeclaration.
Proof.
  split; [split|].
  - intros (culprit & Hvisits & Hculprit). by apply visit_throws with culprit.
  - intros Hthrow. by apply visit_throw_inv in Hthrow as [_ ?].
  - intros e Hthrow. by apply visit_throw_inv in Hthrow as [? _].
Qed.

End Exceptions.

(** ** The world around [writeJsonFile] *)

Section WorldFrame.

Variable SetAccessor : SyntaxKind.
Variable basename : string → string.
Variable EOL : string.
Variable schemaError : JsValue → option IJsonSchemaErrorInfo.

(** X6.  [writeJsonFile] never changes a file other than the one at the
    output path; and when the traversal throws, it throws that exception
    on and leaves the world as it was: nothing is saved, validated or
    logged. *)
Theorem writeJsonFile_frame (reportFilename : string) (extractor : Extractor)
    (jsonOutput : JsObject) (world : World) :
  let (world', result) :=
    writeJsonFile SetAccessor basename EOL schemaError
      reportFilename extractor jsonOutput world in
  (∀ other, other ≠ reportFilename →
            files world' !! other = files world !! other)
  ∧ ∀ e, visit SetAccessor (package extractor) jsonOutput = Throw e →
         world' = world ∧ result = Throw e.
Proof.
  unfold writeJsonFile, validateObject.
  destruct (visit SetAccessor (package extractor) jsonOutput)
    as [[package' document]|e]; simpl.
  - destruct (schemaError (JObject document)); simpl;
      (split; [|done]); intros other Hother; by apply lookup_insert_ne.
  - split; [done|]. intros e' He. by inversion He.
Qed.

End WorldFrame.

(** ** Using a generator again *)

Lemma assignAll_cons_other (k : string) (v : JsValue)
    (entries target : JsObject) :
  k ∉ js_keys entries →
  assignAll entries ((k, v) :: target) = (k, v) :: assignAll entries target.
Proof.
  unfold assignAll, js_keys. revert target.
  induction entries as [|[k' v'] entries IH]; intros target Hk; simpl;
    [done|].
  apply not_elem_of_cons in Hk as [Hne Hk].
  destruct (String.eqb k k') eqn:E; [by apply String.eqb_eq in E|].
  by rewrite IH.
Qed.

(** Assigning entries of distinct keys into an object that has those
    keys in that order leaves exactly the entries. *)
Lemma assignAll_same_keys (entries target : JsObject) :
  js_keys target = js_keys entries →
  NoDup (js_keys entries) →
  assignAll entries target = entries.
Proof.
  revert target.
  induction entries as [|[k v] entries IH]; intros target Hkeys Hnd.
  - by destruct target.
  - destruct target as [|[k0 v0] target]; [done|].
    unfold js_keys in *. simpl in *. inversion Hkeys. subst k0.
    apply NoDup_cons in Hnd as [Hfresh Hnd].
    change (assignAll entries (js_set k v ((k, v0) :: target))
            = (k, v) :: entries).
    simpl. rewrite String.eqb_refl.
    rewrite assignAll_cons_other by done. by rewrite IH.
Qed.

Lemma assignAll_empty (entries : JsObject) :
  NoDup (js_keys entries) → assignAll entries [] = entries.
Proof.
  induction entries as [|[k v] entries IH]; intros Hnd; [done|].
  unfold js_keys in *. simpl in *.
  apply NoDup_cons in Hnd as [Hfresh Hnd].
  change (assignAll entries [(k, v)] = (k, v) :: entries).
  rewrite assignAll_cons_other by done. by rewrite IH.
Qed.

Section Reuse.

Variable SetAccessor : SyntaxKind.

(** The keys of the document of a package, written into the empty object. *)
Lemma package_root_keys (base : AstItemBase.t) (members : list AstItem)
    (astItem' : AstItem) (document : JsObject) :
  visit SetAccessor (Package base members) [] = Ok (astItem', document) →
  js_keys document
  = if suppressed (Package base members) then [] else rootKeys.
Proof.
  rewrite visit_unfold. destruct (suppressed _); [intros; by ok_inv|].
  simpl. unfold visitAstPackage. intros Hv. by ok_inv.
Qed.

(** X7.  A generator that has written one package can write another: the
    visit of a second package that passes the visibility gate, into the
    document that the visit of a first package has left, gives the
    document of the second package alone. *)
Theorem second_package_replaces_document
    (base1 base2 : AstItemBase.t) (members1 members2 : list AstItem)
    (package1' package2' : AstItem) (document1 document2 : JsObject) :
  suppressed (Package base2 members2) = false →
  visit SetAccessor (Package base1 members1) [] = Ok (package1', document1) →
  visit SetAccessor (Package base2 members2) [] = Ok (package2', document2) →
  visit SetAccessor (Package base2 members2) document1
  = Ok (package2', document2).
Proof.
  intros Hgate H1 H2. rewrite visit_via_empty, H2. f_equal. f_equal.
  apply package_root_keys in H1. pose proof (package_root_keys _ _ _ _ H2) as K2.
  rewrite Hgate in K2.
  assert (Hnd : NoDup (js_keys document2)).
  { rewrite K2. by apply (bool_decide_unpack _). }
  destruct (suppressed (Package base1 members1)).
  - destruct document1; [|done]. by apply assignAll_empty.
  - apply assignAll_same_keys; [congruence|done].
Qed.

(** [isSetter]: the visit returns with the target as it was. *)
Lemma visit_setter (astItem : AstItem) (refObject : JsObject) :
  isSetter SetAccessor astItem = true →
  visit SetAccessor astItem refObject = Ok (astItem, refObject).
Proof.
  rewrite visit_unfold. destruct (suppressed astItem); [done|].
  destruct astItem as [| | | | | |base fields| | |]; try done. simpl.
  unfold visitAstProperty.
  destruct (AstItemBase.supportedName base); [|done]. simpl.
  destruct (AstItemBase.declaration base); [|done]. by intros ->.
Qed.

(** X8.  A property whose declaration is a set accessor leaves no trace:
    the loop over a member list that holds it fills the container as it
    does without it, so that the get accessor of the same name, if there
    is one, gives the only entry under that name. *)
Theorem set_accessor_leaves_no_trace (before after : list AstItem)
    (astItem : AstItem) (refObject : JsObject) :
  isSetter SetAccessor astItem = true →
  containerOf (visitEach (visit SetAccessor) (before ++ astItem :: after)
                         refObject)
  = containerOf (visitEach (visit SetAccessor) (before ++ after) refObject).
Proof.
  intros Hsetter. apply visitEach_without. intros target.
  by apply visit_setter.
Qed.

(** X9.  The [isBeta] of a node is the item's own: it is true exactly
    when the release tag of the item itself is Beta, whatever the tags of
    the items around it. *)
Theorem isBeta_is_the_items_own (astItem astItem' : AstItem)
    (refObject refObject' : JsObject) :
  emitted SetAccessor astItem = true →
  hasIsBeta astItem = true →
  visit SetAccessor astItem refObject = Ok (astItem', refObject') →
  nodeField (itemName astItem) "isBeta" refObject'
  = Some (JBool (ReleaseTag.eqb (itemReleaseTag astItem) ReleaseTag.Beta)).
Proof.
  unfold emitted, itemSupportedName, itemName, itemReleaseTag.
  rewrite visit_unfold.
  destruct (suppressed astItem); [done|]. simpl.
  destruct astItem as [base fields members|base members|base|base fields
                      |base members|base members|base fields|base fields
                      |base fields|base]; simpl; try done.
  - unfold visitAstStructuredType.
    destruct (AstItemBase.supportedName base); [|done]. simpl. intros _ _.
    destruct members; intros Hv; ok_inv; by rewrite nodeField_set.
  - unfold visitAstEnum.
    destruct (AstItemBase.supportedName base); [|done]. simpl.
    intros _ _ Hv. ok_inv. by rewrite nodeField_set.
  - unfold visitAstEnumValue.
    destruct (AstItemBase.supportedName base); [|done]. simpl.
    intros _ _ Hv. ok_inv. by rewrite nodeField_set.
  - unfold visitAstFunction.
    destruct (AstItemBase.supportedName base); [|done]. simpl.
    intros _ _ Hv. ok_inv. by rewrite nodeField_set.
  - unfold visitAstNamespace.
    destruct (AstItemBase.supportedName base); [|done]. simpl.
    intros _ _ Hv. ok_inv. by rewrite nodeField_set.
  - unfold visitAstProperty.
    destruct (AstItemBase.supportedName base); [|done]. simpl.
    destruct (AstItemBase.declaration base); [|done]. simpl.
    destruct (N.eqb _ SetAccessor); [done|]. intros _ _ Hv. ok_inv.
    by rewrite nodeField_set.
  - unfold visitAstModuleVariable. intros _ _ Hv. ok_inv.
    by rewrite nodeField_set.
  - unfold visitAstMethod.
    destruct (AstItemBase.supportedName base); [|done]. simpl.
    destruct (String.eqb (AstItemBase.name base) "__constructor"); [done|].
    intros _ _ Hv. ok_inv. by rewrite nodeField_set.
Qed.

End Reuse.

(** ** Running the traversal again *)

Lemma stamp_idempotent (params : list AstParameter.t) (k : string)
    (entry : IApiParameter.t) :
  stamp params k (stamp params k entry) = stamp params k entry.
Proof.
  destruct (stamp_erase params k (stamp params k entry) entry
              (stamp_keeps_erased _ _ _)) as [H|[H _]]; [|done].
  by rewrite H.
Qed.

(** The loop over the declared parameters, run on the map that it has
    left, leaves that map. *)
Lemma visitParams_idempotent (params : list AstParameter.t)
    (parameters : JsObj IApiParameter.t) :
  visitParams params (visitParams params parameters)
  = visitParams params parameters.
Proof.
  revert params.
  induction parameters as [|[k entry] parameters IH]; intros params.
  - assert (Hnil : visitParams params [] = []); [|by rewrite !Hnil].
    induction params as [|param params IHp]; [done|].
    rewrite visitParams_cons.
    unfold visitParam, visitApiParam. simpl.
    by destruct (AstParameter.supportedName param).
  - by rewrite !visitParams_cons_entry, stamp_idempotent, IH.
Qed.

Lemma assignAll_get (entries target : JsObject) (k : string) (v : JsValue) :
  NoDup (js_keys entries) →
  (k, v) ∈ entries →
  js_get k (assignAll entries target) = Some v.
Proof.
  unfold assignAll, js_keys. revert target.
  induction entries as [|[k' v'] entries IH]; intros target Hnd Hin;
    [by apply elem_of_nil in Hin|].
  simpl in *. apply NoDup_cons in Hnd as [Hfresh Hnd].
  apply elem_of_cons in Hin as [Heq|Hin].
  - inversion Heq. subst k' v'. clear Heq IH.
    assert (Hget : js_get k (js_set k v target) = Some v)
      by apply js_get_set_eq.
    revert Hget Hfresh. generalize (js_set k v target). clear.
    induction entries as [|[k' v'] entries IH]; intros o Hget Hfresh;
      simpl in *; [done|].
    apply not_elem_of_cons in Hfresh as [Hne Hfresh].
    apply IH; [|done]. by rewrite js_get_set_ne.
  - by apply IH.
Qed.

(** Assigning entries of distinct keys a second time changes nothing. *)
Lemma assignAll_idempotent (entries target : JsObject) :
  NoDup (js_keys entries) →
  assignAll entries (assignAll entries target) = assignAll entries target.
Proof.
  intros Hnd.
  assert (Hall : ∀ k v, (k, v) ∈ entries →
                        js_get k (assignAll entries target) = Some v)
    by (intros; by apply assignAll_get).
  revert Hall. generalize (assignAll entries target). clear Hnd.
  unfold assignAll.
  induction entries as [|[k v] entries IH]; intros o Hall; simpl; [done|].
  rewrite js_set_same by (apply Hall; left).
  apply IH. intros k' v' Hin. apply Hall. by right.
Qed.

Section Again.

Variable SetAccessor : SyntaxKind.

(** The keys that a visit writes into the empty object are distinct. *)
Lemma visit_own_keys_NoDup (astItem astItem' : AstItem) (own : JsObject) :
  visit SetAccessor astItem [] = Ok (astItem', own) →
  NoDup (js_keys own).
Proof.
  intros Hv.
  assert (Hone : ordinaryMember astItem → NoDup (js_keys own)).
  { intros Hord. apply visit_keys in Hv; [|done]. rewrite Hv.
    destruct (emitted SetAccessor astItem);
      [apply NoDup_singleton|apply NoDup_nil_2]. }
  destruct astItem as [| | | |base members| | |base fields| |];
    try by apply Hone.
  - apply package_root_keys in Hv. rewrite Hv.
    destruct (suppressed _); by apply (bool_decide_unpack _).
  - rewrite visit_unfold in Hv.
    destruct (suppressed _); simpl in Hv; ok_inv;
      [apply NoDup_nil_2|apply NoDup_singleton].
Qed.

Lemma visitEach_cons_inv (visit' : AstItem → JsObject → Result (AstItem * JsObject))
    (astItem : AstItem) (members members' : list AstItem)
    (refObject refObject' : JsObject) :
  visitEach visit' (astItem :: members) refObject = Ok (members', refObject') →
  ∃ astItem' rest, members' = astItem' :: rest.
Proof. simpl. intros Hv. ok_inv. by eauto. Qed.

Lemma visitEach_again (members members' : list AstItem)
    (refObject refObject' : JsObject) :
  Forall (λ astItem, ∀ astItem' refObject refObject',
            visit SetAccessor astItem refObject = Ok (astItem', refObject') →
            visit SetAccessor astItem' refObject = Ok (astItem', refObject'))
         members →
  visitEach (visit SetAccessor) members refObject = Ok (members', refObject') →
  visitEach (visit SetAccessor) members' refObject = Ok (members', refObject').
Proof.
  intros Hall. revert members' refObject.
  induction Hall as [|astItem members Hitem Hall IH];
    intros members' refObject Hv; simpl in Hv; ok_inv; [done|].
  simpl.
  match goal with H : visit _ astItem _ = Ok _ |- _ =>
    rewrite (Hitem _ _ _ H) end.
  simpl.
  match goal with H : visitEach _ members _ = Ok _ |- _ =>
    rewrite (IH _ _ H) end.
  done.
Qed.

(** The tree that a visit returns, visited into the same target, comes
    back as it is, with the same target after it. *)
Lemma visit_again_same_target (astItem astItem' : AstItem)
    (refObject refObject' : JsObject) :
  visit SetAccessor astItem refObject = Ok (astItem', refObject') →
  visit SetAccessor astItem' refObject = Ok (astItem', refObject').
Proof.
  revert astItem' refObject refObject'.
  induction astItem as [base fields members IH|base members IH|base
                       |base fields|base members IH|base members IH
                       |base fields|base fields|base fields|base]
    using AstItem_ind;
    intros astItem' refObject refObject' Hv;
    pose proof Hv as Hv'; rewrite visit_unfold in Hv';
    (destruct (suppressed _) eqn:Hgate; [by ok_inv|]);
    simpl in Hv'.
  - unfold visitAstStructuredType in Hv'.
    destruct (AstItemBase.supportedName base) eqn:Hname; simpl in Hv';
      [|by ok_inv].
    destruct members as [|member members]; [by ok_inv|].
    destruct (visitEach _ (member :: members) []) as [[members' c]|] eqn:Hloop;
      simpl in Hv'; ok_inv.
    destruct (visitEach_cons_inv _ _ _ _ _ _ Hloop) as (m' & rest & ->).
    apply visitEach_again in Hloop; [|done].
    rewrite visit_unfold. unfold suppressed, itemReleaseTag in *. simpl in *.
    rewrite Hgate. simpl. unfold visitAstStructuredType.
    rewrite Hname. simpl. simpl in Hloop. by rewrite Hloop.
  - unfold visitAstEnum in Hv'.
    destruct (AstItemBase.supportedName base) eqn:Hname; simpl in Hv';
      [|by ok_inv].
    destruct (visitEach _ members []) as [[members' c]|] eqn:Hloop;
      simpl in Hv'; ok_inv.
    apply visitEach_again in Hloop; [|done].
    rewrite visit_unfold. unfold suppressed, itemReleaseTag in *. simpl in *.
    rewrite Hgate. simpl. unfold visitAstEnum.
    rewrite Hname. simpl. by rewrite Hloop.
  - by ok_inv.
  - unfold visitAstFunction in Hv'.
    destruct (AstItemBase.supportedName base) eqn:Hname; simpl in Hv';
      [|by ok_inv].
    ok_inv.
    rewrite visit_unfold. unfold suppressed, itemReleaseTag in *. simpl in *.
    rewrite Hgate. simpl. unfold visitAstFunction. simpl.
    rewrite Hname. simpl. rewrite visitParams_idempotent.
    by destruct base as [? ? ? [? ? ? ? ? ?] ?].
  - unfold visitAstPackage in Hv'.
    destruct (visitEach _ members []) as [[members' c]|] eqn:Hloop;
      simpl in Hv'; ok_inv.
    apply visitEach_again in Hloop; [|done].
    rewrite visit_unfold. unfold suppressed, itemReleaseTag in *. simpl in *.
    rewrite Hgate. simpl. unfold visitAstPackage. by rewrite Hloop.
  - unfold visitAstNamespace in Hv'.
    destruct (AstItemBase.supportedName base) eqn:Hname; simpl in Hv';
      [|by ok_inv].
    destruct (visitEach _ members []) as [[members' c]|] eqn:Hloop;
      simpl in Hv'; ok_inv.
    apply visitEach_again in Hloop; [|done].
    rewrite visit_unfold. unfold suppressed, itemReleaseTag in *. simpl in *.
    rewrite Hgate. simpl. unfold visitAstNamespace.
    rewrite Hname. simpl. by rewrite Hloop.
  - destruct (visitAstProperty _ _ _ _); simpl in Hv'; by ok_inv.
  - by ok_inv.
  - unfold visitAstMethod in Hv'.
    destruct (AstItemBase.supportedName base) eqn:Hname; simpl in Hv';
      [|by ok_inv].
    ok_inv.
    rewrite visit_unfold. unfold suppressed, itemReleaseTag in *. simpl in *.
    rewrite Hgate. simpl. unfold visitAstMethod. simpl.
    rewrite Hname. simpl. rewrite visitParams_idempotent.
    by destruct base as [? ? ? [? ? ? ? ? ?] ?].
  - destruct (visitAstMember _ _); simpl in Hv'; by ok_inv.
Qed.

(** X10.  The traversal can be run again: the visit of the tree that a
    visit has returned, into the target that it has left, returns that
    tree and leaves that target as they are. *)
Theorem visit_idempotent (astItem astItem' : AstItem)
    (refObject refObject' : JsObject) :
  visit SetAccessor astItem refObject = Ok (astItem', refObject') →
  visit SetAccessor astItem' refObject' = Ok (astItem', refObject').
Proof.
  intros Hv. apply visit_again_same_target in Hv.
  revert Hv.
  rewrite (visit_via_empty SetAccessor astItem' refObject),
    (visit_via_empty SetAccessor astItem' refObject').
  destruct (visit SetAccessor astItem' []) as [[item own]|] eqn:Hown;
    [|done].
  intros Hv. ok_inv.
  rewrite assignAll_idempotent; [done|].
  by eapply visit_own_keys_NoDup.
Qed.

End Again.

(** ** Entries of other names in the parameter map *)

Section OtherEntries.

Variable SetAccessor : SyntaxKind.

(** X11.  In the [parameters] of the node of an emitted function or
    method, the documentation entry of a name that no declared parameter
    of a supported name has stands as it was documented: the visitor
    assigns nothing into it. *)
Theorem other_entries_pass_unchanged (astItem astItem' : AstItem)
    (refObject refObject' : JsObject) (k : string) :
  emitted SetAccessor astItem = true →
  visit SetAccessor astItem refObject = Ok (astItem', refObject') →
  k ∉ supportedParamNames astItem →
  match astItem with
  | Function _ _ | Method _ _ =>
      ∃ parameters : JsObject,
        nodeField (itemName astItem) "parameters" refObject'
        = Some (JObject parameters)
        ∧ js_get k parameters
          = parameterNode <$> js_get k (documentedParams astItem)
  | _ => True
  end.
Proof.
  intros Hemitted Hv Hk.
  pose proof (emitted_parameters_field _ _ _ _ _ Hemitted Hv) as Hfield.
  destruct astItem as [| | |base fields| | | | |base fields|]; try done;
    (eexists; split; [exact Hfield|]);
    by rewrite parametersNode_get, visitParams_unsupported.
Qed.

End OtherEntries.

(** ** Trimming and splitting *)

Lemma trimStart_head (s rest : CodeUnits) (c : N) :
  trimStart s = c :: rest → isWhiteSpace c = false.
Proof.
  induction s as [|d s IH]; simpl; [done|].
  destruct (isWhiteSpace d) eqn:Hd; [done|].
  intros H. inversion H. by subst.
Qed.

Lemma trimEnd_head (s rest : CodeUnits) (c : N) :
  trimEnd s = c :: rest → ∃ rest', s = c :: rest'.
Proof.
  destruct s as [|d s]; simpl; [done|].
  destruct (trimEnd s); [destruct (isWhiteSpace d)|];
    intros H; inversion H; by eauto.
Qed.

Lemma trimEnd_last (s : CodeUnits) (c : N) :
  last (trimEnd s) = Some c → isWhiteSpace c = false.
Proof.
  induction s as [|d s IH]; simpl; [done|].
  destruct (trimEnd s) as [|e kept] eqn:Hkept.
  - destruct (isWhiteSpace d) eqn:Hd; simpl; [done|].
    intros H. inversion H. by subst.
  - intros H. by apply IH.
Qed.

Lemma trimStart_sublist (s : CodeUnits) (c : N) :
  c ∈ trimStart s → c ∈ s.
Proof.
  induction s as [|d s IH]; simpl; [done|].
  destruct (isWhiteSpace d); [|done]. intros H. right. by apply IH.
Qed.

Lemma trimEnd_sublist (s : CodeUnits) (c : N) :
  c ∈ trimEnd s → c ∈ s.
Proof.
  induction s as [|d s IH]; simpl; [done|].
  destruct (trimEnd s) as [|e kept].
  - destruct (isWhiteSpace d); [by intros ?%elem_of_nil|].
    intros ->%list_elem_of_singleton. left.
  - intros [->|H]%elem_of_cons; [left|right; by apply IH].
Qed.

(** A trimmed text begins and ends with something other than white
    space. *)
Lemma trim_ends (s : CodeUnits) :
  (∀ c, head (trim s) = Some c → isWhiteSpace c = false)
  ∧ (∀ c, last (trim s) = Some c → isWhiteSpace c = false).
Proof.
  unfold trim. split; intros c H.
  - destruct (trimEnd (trimStart s)) as [|d rest] eqn:Htrim; [done|].
    simpl in H. inversion H. subst d.
    destruct (trimEnd_head _ _ _ Htrim) as [rest' Hstart].
    by apply trimStart_head in Hstart.
  - by apply trimEnd_last in H.
Qed.

Lemma splitLines_nonempty (s : CodeUnits) : splitLines s ≠ [].
Proof.
  destruct s as [|c s]; simpl; [done|].
  destruct (N.eqb c 10); [done|]. by destruct (splitLines s).
Qed.

(** No piece of a split text holds a line feed. *)
Lemma splitLines_no_line_feed (s line : CodeUnits) :
  line ∈ splitLines s → 10%N ∉ line.
Proof.
  revert line. induction s as [|c s IH]; intros line; simpl.
  - intros ->%list_elem_of_singleton. apply not_elem_of_nil.
  - destruct (N.eqb c 10) eqn:Hc.
    + intros [->|H]%elem_of_cons; [apply not_elem_of_nil|by apply IH].
    + destruct (splitLines s) as [|first lines] eqn:Hsplit.
      * intros ->%list_elem_of_singleton.
        apply N.eqb_neq in Hc. intros H%list_elem_of_singleton. congruence.
      * intros [->|H]%elem_of_cons.
        -- apply N.eqb_neq in Hc. apply not_elem_of_cons. split; [done|].
           apply IH. left.
        -- apply IH. by right.
Qed.

(** Splitting a text at a line feed splits its pieces. *)
Lemma splitLines_app (before after : CodeUnits) :
  splitLines (before ++ 10%N :: after) = splitLines before ++ splitLines after.
Proof.
  induction before as [|c before IH]; simpl; [done|].
  destruct (N.eqb c 10); [by rewrite IH|].
  rewrite IH. pose proof (splitLines_nonempty before).
  by destruct (splitLines before).
Qed.



(** X12.  What the [onData] of the TypeScript task writes are lines:
    each text is not empty, begins and ends with something other than
    white space, and holds no line feed. *)
Theorem tscOnData_writes_trimmed_lines (data : CodeUnits) (output : TaskOutput) :
  output ∈ tscOnData data →
  ∃ text,
    (output = WriteLine text ∨ output = WriteErrorLine text)
    ∧ text ≠ []
    ∧ (∀ c, head text = Some c → isWhiteSpace c = false)
    ∧ (∀ c, last text = Some c → isWhiteSpace c = false)
    ∧ 10%N ∉ text.
Proof.
  unfold tscOnData. rewrite list_elem_of_In, in_flat_map.
  intros (dataLine & Hline%list_elem_of_In & Hout%list_elem_of_In).
  destruct (trim dataLine) as [|c rest] eqn:Htrim;
    [by apply elem_of_nil in Hout|].
  exists (c :: rest).
  destruct (trim_ends dataLine) as [Hhead Hlast]. rewrite Htrim in *.
  split.
  { destruct (matchesErrorWord (c :: rest));
      apply list_elem_of_singleton in Hout; [by right|by left]. }
  split; [done|]. split; [done|]. split; [done|].
  intros Hlf. apply (splitLines_no_line_feed _ _ Hline).
  apply trimStart_sublist, trimEnd_sublist. fold (trim dataLine).
  by rewrite Htrim.
Qed.

(** X13.  A chunk that holds a line feed is written as its two parts are:
    the outputs for the text before the line feed, then those for the
    text after it. *)
Theorem tscOnData_splits_at_line_feed (before after : CodeUnits) :
  tscOnData (before ++ 10%N :: after) = tscOnData before ++ tscOnData after.
Proof.
  unfold tscOnData. by rewrite splitLines_app, flat_map_app.
Qed.



(** ** The arguments of the TSLint task *)

Lemma hasArg_app (arg : string) (before after : list string) :
  hasArg arg (before ++ after) = hasArg arg before || hasArg arg after.
Proof. apply existsb_app. Qed.

Section TslintLogging.

Variable Value : Type.
Variable parse : CodeUnits → option Value.
Variable iterate : Value → option (list Value).
Variable getProperty : Value → string → option Value.
Variable relative : string → Value → option string.
Variable plusOne : Value → Value.

(** After [invoke], a task that was given [customArgs] names a formatter
    in them. *)
Lemma tslintInvoke_names_formatter (srcFolderPath : string)
    (given : list string) (asError : bool) :
  customFormatterSpecified
    (optionsAfter (tslintInvoke srcFolderPath
                     (mkTslintOptions (Some given) asError)))
  = true.
Proof.
  unfold tslintInvoke, customFormatterSpecified. simpl.
  destruct (hasArg "--formatters-dir" given) eqn:H1,
           (hasArg "-s" given) eqn:H2,
           (hasArg "--format" given) eqn:H3,
           (hasArg "-t" given) eqn:H4; simpl;
    rewrite ?hasArg_app, ?H1, ?H2, ?H3, ?H4; simpl;
    by rewrite ?orb_true_r.
Qed.

(** X15.  [invoke] pushes its arguments onto the array [customArgs]
    itself, so when [customArgs] is given, with or without a formatter
    in it, the task options name a formatter once [invoke] has run, and
    the [onData] of that run reports nothing, whatever TSLint writes.
    Only a task without [customArgs] keeps its options and its default
    logging. *)
Theorem tslint_logging_needs_undefined_customArgs
    (srcFolderPath projectFolderPath : string) (taskOptions : TslintOptions)
    (data : CodeUnits) :
  let invocation := tslintInvoke srcFolderPath taskOptions in
  match customArgs taskOptions with
  | Some _ =>
      customArgs (optionsAfter invocation) = Some (args invocation)
      ∧ customFormatterSpecified (optionsAfter invocation) = true
      ∧ tslintOnData Value parse iterate getProperty relative plusOne
          projectFolderPath (optionsAfter invocation) data = []
  | None =>
      optionsAfter invocation = taskOptions
      ∧ customFormatterSpecified (optionsAfter invocation) = false
      ∧ args invocation = ["--format"; "json"; "--project"; srcFolderPath]
  end.
Proof.
  destruct taskOptions as [[given|] asError]; cbv zeta; cbn [customArgs].
  - pose proof (tslintInvoke_names_formatter srcFolderPath given asError)
      as Hnames.
    split; [done|]. split; [done|].
    unfold tslintOnData. by rewrite Hnames.
  - done.
Qed.

End TslintLogging.

(** X16.  A second [invoke] of a task that was given [customArgs]
    without a formatter finds the formatter that the first one pushed:
    it writes that a custom formatter has been specified, and passes the
    project twice. *)
Theorem tslint_second_invoke (srcFolderPath : string) (given : list string)
    (asError : bool) :
  customFormatterSpecified (mkTslintOptions (Some given) asError) = false →
  let first := tslintInvoke srcFolderPath (mkTslintOptions (Some given) asError) in
  let second := tslintInvoke srcFolderPath (optionsAfter first) in
  written first = []
  ∧ written second
    = [WriteVerboseLine
         "A custom formatter has been specified in customArgs, so the default TSLint error logging has been disabled."]
  ∧ args second
    = given ++ ["--format"; "json"; "--project"; srcFolderPath;
                "--project"; srcFolderPath].
Proof.
  intros Hnone.
  pose proof (tslintInvoke_names_formatter srcFolderPath given asError)
    as Hnames.
  unfold tslintInvoke in *. simpl in *. rewrite Hnone in *. simpl in *.
  rewrite Hnames. simpl. split; [done|]. split; [done|].
  by rewrite <- !app_assoc.
Qed.

(** ** Trees that the traversal gets through *)

Section Returns.

Variable SetAccessor : SyntaxKind.

Lemma visits_declared (root astItem : AstItem) :
  Visits root astItem →
  hasDeclarations root = true →
  undeclared astItem = false.
Proof.
  induction 1 as [astItem|container member astItem _ Hin _ IH];
    intros Hdeclared.
  - unfold undeclared.
    destruct astItem; try done; simpl in Hdeclared; rewrite Hdeclared;
      by rewrite andb_false_r.
  - apply IH. apply list_elem_of_In in Hin.
    destruct container; simpl in *; try done;
      by apply (proj1 (forallb_forall _ _) Hdeclared).
Qed.

(** X17.  On a tree in which every property and every placeholder
    member has a declaration the traversal returns, whatever the target
    holds: it throws nothing. *)
Theorem visit_returns_when_declared (astItem : AstItem) (refObject : JsObject) :
  hasDeclarations astItem = true →
  ∃ astItem' refObject',
    visit SetAccessor astItem refObject = Ok (astItem', refObject').
Proof.
  intros Hdeclared.
  destruct (visit SetAccessor astItem refObject)
    as [[astItem' refObject']|e] eqn:Hv; [by eauto|].
  apply visit_throw_inv in Hv as (_ & culprit & Hvisits & Hculprit).
  by rewrite (visits_declared _ _ Hvisits Hdeclared) in Hculprit.
Qed.

Lemma visitEach_all_suppressed (members : list AstItem) (refObject : JsObject) :
  Forall (λ astItem, suppressed astItem = true) members →
  visitEach (visit SetAccessor) members refObject = Ok (members, refObject).
Proof.
  induction 1 as [|astItem members Hs _ IH]; simpl; [done|].
  rewrite visit_suppressed by done. simpl. by rewrite IH.
Qed.

(** X18.  The structured type looks at the length of its member list
    before the visibility gate has seen the members: a structured type
    all of whose members are tagged Alpha or Internal gets an empty
    [members] object, where one without members gets none. *)
Theorem suppressed_members_leave_empty_object (base : AstItemBase.t)
    (fields : AstStructuredType.t) (members : list AstItem)
    (astItem' : AstItem) (refObject refObject' : JsObject) :
  emitted SetAccessor (StructuredType base fields members) = true →
  members ≠ [] →
  Forall (λ astItem, suppressed astItem = true) members →
  visit SetAccessor (StructuredType base fields members) refObject
  = Ok (astItem', refObject') →
  nodeField (AstItemBase.name base) "members" refObject' = Some (JObject []).
Proof.
  unfold emitted, itemSupportedName. rewrite visit_unfold.
  destruct (suppressed _); [done|]. simpl.
  unfold visitAstStructuredType.
  destruct (AstItemBase.supportedName base); [|done]. simpl.
  intros _ Hmembers Hall.
  destruct members as [|member members]; [done|].
  rewrite (visitEach_all_suppressed _ _ Hall). simpl.
  intros Hv. ok_inv. by rewrite nodeField_set.
Qed.

End Returns.

(** ** The further theorems at particular inputs *)

(** A property without a declaration, two levels below the package:
    the traversal of the package throws. *)
Lemma undeclared_package_throws :
  visit 154 undeclaredPackage [] = Throw noDeclaration.
Proof. reflexivity. Qed.

Lemma visit_leaves_other_names_witness :
  ∃ astItem' refObject',
    visit 154 redValue [("Green", JString "kept")] = Ok (astItem', refObject')
    ∧ js_get "Green" refObject' = Some (JString "kept")
    ∧ ["Green"] `prefix_of` js_keys refObject'.
Proof.
  do 2 eexists. split; [reflexivity|].
  destruct (visit_leaves_other_names 154 redValue _
              [("Green", JString "kept")] _ I eq_refl eq_refl)
    as [Hother Hkeys].
  split; [by apply Hother|exact Hkeys].
Defined.

Lemma member_container_concatenates_witness :
  ∃ members' container,
    visitEach (visit 154) (membersOf sampleClass) [] = Ok (members', container)
    ∧ container = concat (ownEntries 154 <$> membersOf sampleClass).
Proof.
  do 2 eexists. split; [reflexivity|].
  eapply (member_container_concatenates 154 (membersOf sampleClass));
    [repeat constructor|repeat constructor
    |by apply (bool_decide_unpack _)|reflexivity].
Defined.


Lemma second_package_replaces_document_witness :
  ∃ package1' document1 package2' document2,
    visit 154 examplePackage [] = Ok (package1', document1)
    ∧ visit 154 alphaClassPackage [] = Ok (package2', document2)
    ∧ visit 154 alphaClassPackage document1 = Ok (package2', document2).
Proof.
  unfold examplePackage, alphaClassPackage.
  match goal with
  | |- ∃ _ _ _ _, visit _ (Package ?base1 ?members1) _ = _
                  ∧ visit _ (Package ?base2 ?members2) _ = _ ∧ _ =>
      destruct (visit 154 (Package base1 members1) [])
        as [[package1' document1]|] eqn:Hfirst; [|discriminate Hfirst];
      destruct (visit 154 (Package base2 members2) [])
        as [[package2' document2]|] eqn:Hsecond; [|discriminate Hsecond];
      exists package1', document1, package2', document2;
      split; [reflexivity|]; split; [reflexivity|];
      exact (second_package_replaces_document 154 base1 base2
               members1 members2 _ _ _ _ eq_refl Hfirst Hsecond)
  end.
Defined.

Lemma set_accessor_leaves_no_trace_witness :
  containerOf (visitEach (visit 154) (membersOf sampleClass) [])
  = containerOf
      (visitEach (visit 154)
         (take 1 (membersOf sampleClass) ++ drop 2 (membersOf sampleClass))
         []).
Proof.
  exact (set_accessor_leaves_no_trace 154
           (take 1 (membersOf sampleClass))
           (drop 2 (membersOf sampleClass))
           (hd plainMember (drop 1 (membersOf sampleClass))) [] eq_refl).
Defined.

Lemma isBeta_is_the_items_own_witness :
  ∃ astItem' refObject',
    visit 154 (hd plainMember (membersOf examplePackage)) []
    = Ok (astItem', refObject')
    ∧ nodeField "Foo" "isBeta" refObject' = Some (JBool true)
    ∧ asObject (nodeField "Foo" "members" refObject')
        ≫= (λ members, nodeField "bar" "isBeta" members)
      = Some (JBool false).
Proof.
  do 2 eexists. split; [reflexivity|]. split; [|reflexivity].
  exact (isBeta_is_the_items_own 154
           (hd plainMember (membersOf examplePackage)) _ [] _
           eq_refl eq_refl eq_refl).
Defined.

Lemma visit_idempotent_witness :
  ∃ package' document,
    visit 154 documentedPackage [] = Ok (package', document)
    ∧ visit 154 package' document = Ok (package', document).
Proof.
  do 2 eexists. split; [reflexivity|].
  exact (visit_idempotent 154 documentedPackage _ [] _ eq_refl).
Defined.

Lemma other_entries_pass_unchanged_witness :
  ∃ astItem' refObject' parameters,
    visit 154 staleDocFunction [] = Ok (astItem', refObject')
    ∧ nodeField "parse" "parameters" refObject' = Some (JObject parameters)
    ∧ js_get "old" parameters
      = Some (JObject [("name", JString "old");
                       ("description", JArray [JString "gone"])]).
Proof.
  do 2 eexists.
  destruct (other_entries_pass_unchanged 154 staleDocFunction _ [] _ "old"
              eq_refl eq_refl) as (parameters & Hfield & Hget).
  { by apply (bool_decide_unpack _). }
  exists parameters. split; [reflexivity|]. split; [exact Hfield|exact Hget].
Defined.

Lemma visit_returns_when_declared_witness :
  ∃ astItem' refObject',
    visit 154 sampleClass [] = Ok (astItem', refObject').
Proof.
  exact (visit_returns_when_declared 154 sampleClass [] eq_refl).
Defined.

Lemma suppressed_members_leave_empty_object_witness :
  ∃ astItem' refObject',
    visit 154 hollowClass [] = Ok (astItem', refObject')
    ∧ nodeField "Hollow" "members" refObject' = Some (JObject []).
Proof.
  unfold hollowClass.
  match goal with
  | |- ∃ _ _, visit _ (StructuredType ?base ?fields ?members) _ = _ ∧ _ =>
      destruct (visit 154 (StructuredType base fields members) [])
        as [[astItem' refObject']|] eqn:Hv; [|discriminate Hv];
      exists astItem', refObject'; split; [reflexivity|];
      apply (suppressed_members_leave_empty_object 154 base fields members
               astItem' [] refObject');
        [reflexivity|discriminate|repeat constructor|exact Hv]
  end.
Defined.

Lemma tscOnData_writes_trimmed_lines_witness :
  ∃ text,
    (WriteLine (codeUnits "ok") = WriteLine text
     ∨ WriteLine (codeUnits "ok") = WriteErrorLine text)
    ∧ text ≠ []
    ∧ (∀ c, head text = Some c → isWhiteSpace c = false)
    ∧ (∀ c, last text = Some c → isWhiteSpace c = false)
    ∧ 10%N ∉ text.
Proof.
  apply (tscOnData_writes_trimmed_lines
           (codeUnits "  ok  " ++ 10%N :: codeUnits "   ")).
  left.
Defined.


Lemma tslint_second_invoke_witness :
  let first := tslintInvoke "src" (mkTslintOptions (Some ["--fix"]) true) in
  let second := tslintInvoke "src" (optionsAfter first) in
  written first = []
  ∧ written second
    = [WriteVerboseLine
         "A custom formatter has been specified in customArgs, so the default TSLint error logging has been disabled."]
  ∧ args second
    = ["--fix"; "--format"; "json"; "--project"; "src"; "--project"; "src"].
Proof.
  exact (tslint_second_invoke "src" ["--fix"] true eq_refl).
Defined.
